(** * mos-moss: extraction of Canvas submissions and staging for MOSS

    A shallow embedding of [mos_moss.py] and of its older sibling
    [run_moss.py].  Python values are modelled as follows:

    - [str] is [string]; file names are ASCII, so the classes [\w] and [\d]
      of the [re] module and [str.lower] are given on the ASCII range;
    - a value that is either [None] or a [str] is an [option string];
    - exceptions are the constructors of [exn], and a computation that may
      raise is a [result];
    - the file system is a tree of [node]s, a path is the list of its
      components, and [path_str] renders it the way [os.path.join] does;
      names hold no [/];
    - the scripts splice a folder into the pattern they hand to [glob]; the
      globs are given for a folder that [glob.has_magic] does not take for a
      pattern, and the properties that say what a glob finds below a folder
      assume so of the folder;
    - [random] draws from a supply of numbers that is passed along;
    - the [mosspy] client is third-party code; it is the record [Moss];
      [addFile] and [addBaseFile] take a regular file that is not empty and
      raise [Exception] on anything else; the calls that reach the service
      or write the report are recorded as a list of [event]s. *)

From Stdlib Require Import ZArith Ascii String DecimalString DecimalZ.
From stdpp Require Import base option list strings gmap.

Set Warnings "-register-all".

(** ** Exceptions *)

Inductive exn : Type :=
  | Exception
  | TypeError
  | IndexError
  | ValueError
  | FileNotFoundError
  | NotADirectoryError
  | OSError
  | ShutilError.

Global Instance exn_eq_dec : EqDecision exn.
Proof. solve_decision. Defined.

Inductive result (A : Type) : Type :=
  | Ok (a : A)
  | Raise (e : exn).

Arguments Ok {A} a.
Arguments Raise {A} e.

(** Sequencing: an exception ends the computation.  With these instances
    [x ← m; k] is stdpp's notation for it. *)
Global Instance result_ret : MRet result := fun A a => Ok a.

Global Instance result_bind : MBind result := fun A B f m =>
  match m with
  | Ok a => f a
  | Raise e => Raise e
  end.

Global Instance result_fmap : FMap result := fun A B f m =>
  match m with
  | Ok a => Ok (f a)
  | Raise e => Raise e
  end.

(** [try: body except e: handler]: only the exception [e] is caught. *)
Definition try_except {A} (body : result A) (e : exn) (handler : result A)
  : result A :=
  match body with
  | Ok a => Ok a
  | Raise e' => if decide (e' = e) then handler else Raise e'
  end.

(** [for x in xs: st = body st x], stopping at the first exception. *)
Fixpoint for_each {S A} (body : S → A → result S) (xs : list A) (st : S)
  : result S :=
  match xs with
  | [] => Ok st
  | x :: xs' => st' ← body st x; for_each body xs' st'
  end.

(** ** Strings *)

Definition is_upper (c : ascii) : bool :=
  let n := nat_of_ascii c in (65 <=? n)%nat && (n <=? 90)%nat.

Definition is_lower (c : ascii) : bool :=
  let n := nat_of_ascii c in (97 <=? n)%nat && (n <=? 122)%nat.

Definition is_digit (c : ascii) : bool :=
  let n := nat_of_ascii c in (48 <=? n)%nat && (n <=? 57)%nat.

Definition is_word (c : ascii) : bool :=
  is_upper c || is_lower c || is_digit c || Ascii.eqb c "_"%char.

Definition lower_char (c : ascii) : ascii :=
  if is_upper c then ascii_of_nat (nat_of_ascii c + 32) else c.

(** [str.lower] *)
Fixpoint lower (s : string) : string :=
  match s with
  | EmptyString => EmptyString
  | String c s' => String (lower_char c) (lower s')
  end.

(** [str.endswith] *)
Definition endswith (s suffix : string) : bool :=
  let n := String.length s in
  let m := String.length suffix in
  (m <=? n)%nat && String.eqb (substring (n - m) m s) suffix.

(** [c in s] for a character [c]. *)
Fixpoint has_char (c : ascii) (s : string) : bool :=
  match s with
  | EmptyString => false
  | String x s' => Ascii.eqb x c || has_char c s'
  end.

(** [str.startswith] *)
Definition startswith (s pre : string) : bool := String.prefix pre s.

(** Truth value of a [str] or [None]: [None] and the empty string are false. *)
Definition truthy (v : option string) : bool :=
  match v with
  | Some (String _ _) => true
  | _ => false
  end.

(** [a or b] *)
Definition py_or (a b : option string) : option string :=
  if truthy a then a else b.

(** Truth value of a tuple: only the empty tuple is false. *)
Definition tuple_truthy {A} (t : list A) : bool :=
  match t with
  | [] => false
  | _ :: _ => true
  end.

(** [str(n)] for an [int]. *)
Definition str_of_int (n : Z) : string := NilEmpty.string_of_int (Z.to_int n).

(** ** The [re] module, as far as the two patterns need it

    A pattern is compiled to a sequence of operations as [sre] does: a
    character test, a greedy repetition of a character test, and the marks
    that delimit the groups.  Group [g] lies between mark [2g-2] and mark
    [2g-1]. *)

Module re.

Inductive charset : Type :=
  | Word                 (* \w *)
  | Digit                (* \d *)
  | AnyChar              (* .  *)
  | Literal (c : ascii).

Definition in_charset (cs : charset) (c : ascii) : bool :=
  match cs with
  | Word => is_word c
  | Digit => is_digit c
  | AnyChar => negb (Ascii.eqb c "010"%char)
  | Literal l => Ascii.eqb c l
  end.

Inductive op : Type :=
  | In (cs : charset)
  | MaxRepeat (min : nat) (cs : charset)
  | Mark (i : nat).

Record pattern : Type := Pattern { code : list op; groups : nat }.

Abbreviation marks := (gmap nat nat).

(** Greedy repetition: take one more character when possible, and fall back
    to the continuation [k] when the longer attempt fails. *)
Fixpoint greedy {R} (p : ascii → bool) (k : nat → string → option R)
    (pos : nat) (s : string) : option R :=
  match s with
  | String c s' =>
      if p c then
        match greedy p k (S pos) s' with
        | Some r => Some r
        | None => k pos s
        end
      else k pos s
  | EmptyString => k pos s
  end.

Fixpoint at_least {R} (min : nat) (p : ascii → bool)
    (k : nat → string → option R) (pos : nat) (s : string) : option R :=
  match min with
  | O => greedy p k pos s
  | S min' =>
      match s with
      | String c s' => if p c then at_least min' p k (S pos) s' else None
      | EmptyString => None
      end
  end.

Fixpoint run (prog : list op) (mk : marks) (pos : nat) (s : string)
  : option (marks * nat) :=
  match prog with
  | [] => Some (mk, pos)
  | In cs :: rest =>
      match s with
      | String c s' => if in_charset cs c then run rest mk (S pos) s' else None
      | EmptyString => None
      end
  | MaxRepeat min cs :: rest => at_least min (in_charset cs) (run rest mk) pos s
  | Mark i :: rest => run rest (<[i := pos]> mk) pos s
  end.

Record match_object : Type := Match {
  subject : string;
  span_end : nat;
  regs : marks;
  ngroups : nat
}.

(** [re.match(pattern, s)]: anchored at the start, [None] when it fails. *)
Definition match_ (p : pattern) (s : string) : option match_object :=
  match run (code p) ∅ 0 s with
  | Some (mk, e) => Some (Match s e mk (groups p))
  | None => None
  end.

(** [m.group(g)] for a group that exists. *)
Definition group (m : match_object) (g : nat) : option string :=
  match g with
  | O => Some (substring 0 (span_end m) (subject m))
  | S g' =>
      match regs m !! (2 * g'), regs m !! (2 * g' + 1) with
      | Some b, Some e => Some (substring b (e - b) (subject m))
      | _, _ => None
      end
  end.

(** [res[g]], where [res] is what [re.match] returned: subscripting [None]
    raises [TypeError], and a group number out of range [IndexError]. *)
Definition getitem (res : option match_object) (g : nat)
  : result (option string) :=
  match res with
  | None => Raise TypeError
  | Some m => if (g <=? ngroups m)%nat then Ok (group m g) else Raise IndexError
  end.

End re.

(** ** The file system

    A directory is the list of its entries in the order [os.listdir] reports
    them.  A path is the list of its components below the working
    directory. *)

Inductive node : Type :=
  | File (size : N)
  | Dir (entries : list (string * node)).

Abbreviation path := (list string).

(** [os.path.join] of the components. *)
Definition path_str (p : path) : string := String.concat "/" p.

Definition lookup_entry (name : string) (es : list (string * node))
  : option node :=
  snd <$> List.find (λ e, String.eqb (fst e) name) es.

Fixpoint lookup (n : node) (p : path) : option node :=
  match p with
  | [] => Some n
  | c :: p' =>
      match n with
      | Dir es =>
          match lookup_entry c es with
          | Some n' => lookup n' p'
          | None => None
          end
      | File _ => None
      end
  end.

(** Applies [g] to the first entry called [name]. *)
Fixpoint alter_entry (name : string) (g : node → node)
    (es : list (string * node)) : list (string * node) :=
  match es with
  | [] => []
  | e :: es' =>
      if String.eqb (fst e) name then (fst e, g (snd e)) :: es'
      else e :: alter_entry name g es'
  end.

(** Applies [g] to the node at [p], the one that [lookup] finds. *)
Fixpoint alter_at (p : path) (g : node → node) (n : node) : node :=
  match p with
  | [] => g n
  | c :: p' =>
      match n with
      | Dir es => Dir (alter_entry c (alter_at p' g) es)
      | File sz => File sz
      end
  end.

(** Rewrites the entry list of the directory at [p]. *)
Definition update_dir (p : path)
    (f : list (string * node) → list (string * node)) (n : node) : node :=
  alter_at p (λ d, match d with
                   | Dir es => Dir (f es)
                   | File sz => File sz
                   end) n.

Definition remove_entry (name : string) (es : list (string * node))
  : list (string * node) :=
  List.filter (λ e, negb (String.eqb (fst e) name)) es.

Definition add_entry (name : string) (n : node) (es : list (string * node))
  : list (string * node) :=
  es ++ [(name, n)].

(** A path split into its directory and its last component. *)
Fixpoint split_last (p : path) : option (path * string) :=
  match p with
  | [] => None
  | [c] => Some ([], c)
  | c :: p' =>
      match split_last p' with
      | Some (d, b) => Some (c :: d, b)
      | None => None
      end
  end.

Definition unlink (fs : node) (p : path) : node :=
  match split_last p with
  | Some (d, b) => update_dir d (remove_entry b) fs
  | None => fs
  end.

Definition link (fs : node) (p : path) (n : node) : node :=
  match split_last p with
  | Some (d, b) => update_dir d (add_entry b n) fs
  | None => fs
  end.

Module os.

Definition exists_ (fs : node) (p : path) : bool :=
  match lookup fs p with
  | Some _ => true
  | None => false
  end.

Definition isfile (fs : node) (p : path) : bool :=
  match lookup fs p with
  | Some (File _) => true
  | _ => false
  end.

Definition isdir (fs : node) (p : path) : bool :=
  match lookup fs p with
  | Some (Dir _) => true
  | _ => false
  end.

(** [os.path.getsize]; the scripts call it on regular files only, for which
    it is the length of the content. *)
Definition getsize (fs : node) (p : path) : N :=
  match lookup fs p with
  | Some (File sz) => sz
  | _ => 0%N
  end.

Definition listdir (fs : node) (p : path) : result (list string) :=
  match lookup fs p with
  | Some (Dir es) => Ok (map fst es)
  | Some (File _) => Raise NotADirectoryError
  | None => Raise FileNotFoundError
  end.

Definition rmdir (fs : node) (p : path) : result node :=
  match lookup fs p with
  | Some (Dir []) => Ok (unlink fs p)
  | Some (Dir (_ :: _)) => Raise OSError
  | Some (File _) => Raise NotADirectoryError
  | None => Raise FileNotFoundError
  end.

Definition rename (fs : node) (src dst : path) : result node :=
  match lookup fs src with
  | None => Raise FileNotFoundError
  | Some n =>
      match split_last dst with
      | None => Raise OSError
      | Some (d, _) =>
          if negb (isdir fs d) then Raise FileNotFoundError
          else if bool_decide (src `prefix_of` dst) && negb (bool_decide (src = dst))
          then Raise OSError
          else
            match n, lookup fs dst with
            | _, None => Ok (link (unlink fs src) dst n)
            | File _, Some (File _)
            | Dir _, Some (Dir []) => Ok (link (unlink (unlink fs dst) src) dst n)
            | File _, Some (Dir _) => Raise OSError
            | Dir _, Some (Dir (_ :: _)) => Raise OSError
            | Dir _, Some (File _) => Raise NotADirectoryError
            end
      end
  end.

End os.

Module shutil.

Definition rmtree (fs : node) (p : path) : result node :=
  match lookup fs p with
  | Some (Dir _) => Ok (unlink fs p)
  | Some (File _) => Raise NotADirectoryError
  | None => Raise FileNotFoundError
  end.

(** [shutil.move(src, dst)]: into [dst] when that is a directory, and never
    over an entry that is already there. *)
Definition move (fs : node) (src dst : path) : result node :=
  if os.isdir fs dst then
    if bool_decide (src = dst) then os.rename fs src dst
    else
      match split_last src with
      | None => Raise OSError
      | Some (_, b) =>
          let real_dst := dst ++ [b] in
          if os.exists_ fs real_dst then Raise ShutilError
          else os.rename fs src real_dst
      end
  else os.rename fs src dst.

End shutil.

Module glob.

(** [glob.has_magic]: the string holds one of the characters that start a
    wildcard.  A path without them stands for itself in a pattern; one
    with them is matched against the names that are there. *)
Definition has_magic (s : string) : bool :=
  has_char "*" s || has_char "?" s || has_char "[" s.

(** A name is hidden when it starts with a dot; [*] and [**] skip it. *)
Definition ishidden (name : string) : bool := startswith name ".".

(** The directories that [**] stands for below a directory, relative to it:
    every directory reached through names that are not hidden. *)
Fixpoint rlistdir (n : node) : list path :=
  match n with
  | File _ => []
  | Dir es =>
      flat_map
        (λ e, if ishidden (fst e) then []
              else match snd e with
                   | Dir _ => [fst e] :: map (cons (fst e)) (rlistdir (snd e))
                   | File _ => []
                   end)
        es
  end.

(** What [folder/**] expands to: the folder itself, then [rlistdir]. *)
Definition recursive_dirs (fs : node) (folder : path) : list path :=
  match lookup fs folder with
  | Some (Dir es) => folder :: map (app folder) (rlistdir (Dir es))
  | _ => []
  end.

(** The names of a directory matched by [*suffix]. *)
Definition glob1_suffix (fs : node) (dir : path) (suffix : string)
  : list path :=
  match lookup fs dir with
  | Some (Dir es) =>
      map (λ name, dir ++ [name])
        (List.filter (λ name, negb (ishidden name) && endswith name suffix)
           (map fst es))
  | _ => []
  end.

(** [glob.glob(f"{folder}/*", recursive=True)], for a folder without
    magic. *)
Definition star (fs : node) (folder : path) : list path :=
  glob1_suffix fs folder "".

(** [glob.glob(f"{folder}/**/*{ext}", recursive=True)], for a folder
    without magic. *)
Definition recursive_suffix (fs : node) (folder : path) (ext : string)
  : list path :=
  flat_map (λ d, glob1_suffix fs d ext) (recursive_dirs fs folder).

(** [glob.glob(f"{folder}/**/{name}", recursive=True)] for a literal name
    and a folder without magic. *)
Definition recursive_name (fs : node) (folder : path) (name : string)
  : list path :=
  flat_map (λ d, if os.exists_ fs (d ++ [name]) then [d ++ [name]] else [])
    (recursive_dirs fs folder).

End glob.

(** ** The [random] module

    The generator is a supply of raw draws; [randbelow n] reduces the next
    one into [0, n). *)

Module random.

Definition state : Type := list nat.

Definition randbelow (n : nat) (g : state) : nat * state :=
  match g with
  | [] => (0, [])
  | r :: g' => (r mod n, g')
  end.

(** [x[i], x[j] = x[j], x[i]] *)
Definition swap {A} (x : list A) (i j : nat) : list A :=
  match x !! i, x !! j with
  | Some xi, Some xj => <[j := xi]> (<[i := xj]> x)
  | _, _ => x
  end.

(** The loop of [shuffle], for [i] running from [n] down to [1]. *)
Fixpoint shuffle_from {A} (n : nat) (x : list A) (g : state)
  : list A * state :=
  match n with
  | O => (x, g)
  | S n' =>
      let '(j, g') := randbelow (n + 1) g in
      shuffle_from n' (swap x n j) g'
  end.

(** [random.shuffle(x)] *)
Definition shuffle {A} (x : list A) (g : state) : list A * state :=
  shuffle_from (length x - 1) x g.

End random.

(** [l[:n]] *)
Definition slice_to {A} (l : list A) (n : Z) : list A :=
  if (0 <=? n)%Z then take (Z.to_nat n) l
  else take (length l - Z.to_nat (- n)) l.

(** ** The [mosspy] client *)

Module mosspy.

Record Moss : Type := MkMoss {
  user_id : option string;
  language : string;
  files : list path;
  base_files : list path;
  comment : string;
  directory_mode : Z
}.

(** The languages that the service knows. *)
Definition languages : list string :=
  ["c"; "cc"; "java"; "ml"; "pascal"; "ada"; "lisp"; "scheme"; "haskell";
   "fortran"; "ascii"; "vhdl"; "verilog"; "perl"; "matlab"; "python";
   "mips"; "prolog"; "spice"; "vb"; "csharp"; "modula2"; "a8086";
   "javascript"; "plsql"].

(** [mosspy.Moss(user_id=..., language=...)]; the language is ["c"] unless
    the one given is known. *)
Definition new (user_id : option string) (language : string) : Moss :=
  MkMoss user_id
    (if bool_decide (language ∈ languages) then language else "c")
    [] [] "" 0.

(** The test of [addFile] and of [addBaseFile]:
    [os.path.isfile(file_path) and os.path.getsize(file_path) > 0]. *)
Definition accepts (fs : node) (f : path) : bool :=
  os.isfile fs f && (0 <? os.getsize fs f)%N.

Definition addFile (fs : node) (m : Moss) (f : path) : result Moss :=
  if accepts fs f then
    Ok (MkMoss (user_id m) (language m) (files m ++ [f]) (base_files m)
          (comment m) (directory_mode m))
  else Raise Exception.

Definition addBaseFile (fs : node) (m : Moss) (f : path) : result Moss :=
  if accepts fs f then
    Ok (MkMoss (user_id m) (language m) (files m) (base_files m ++ [f])
          (comment m) (directory_mode m))
  else Raise Exception.

Definition setCommentString (m : Moss) (c : string) : Moss :=
  MkMoss (user_id m) (language m) (files m) (base_files m) c
    (directory_mode m).

Definition setDirectoryMode (m : Moss) (d : Z) : Moss :=
  MkMoss (user_id m) (language m) (files m) (base_files m) (comment m) d.

Definition set_user_id (m : Moss) (u : option string) : Moss :=
  MkMoss u (language m) (files m) (base_files m) (comment m)
    (directory_mode m).

End mosspy.

(** What leaves the process: [moss.send], a
    [Path(p).mkdir(parents=True, exist_ok=True)], which creates what is
    missing of [p], [moss.saveWebPage(url, p)] and
    [mosspy.download_report(url, p, connections=...)]. *)
Inductive event : Type :=
  | Send (m : mosspy.Moss)
  | Mkdir (p : string)
  | SaveWebPage (url : string) (p : string)
  | DownloadReport (url : string) (p : string) (connections : Z).

(** A value that a [for] loop runs over: a list, or a [str], whose items
    are its characters. *)
Inductive iterable : Type :=
  | OfList (l : list string)
  | OfStr (s : string).

Fixpoint chars (s : string) : list string :=
  match s with
  | EmptyString => []
  | String c s' => String c EmptyString :: chars s'
  end.

Definition items (it : iterable) : list string :=
  match it with
  | OfList l => l
  | OfStr s => chars s
  end.

(** Truth value of an argument that is a path or [None]: false for [None]
    and for the empty string. *)
Definition supplied (v : option path) : bool := truthy (path_str <$> v).

(** ** [mos_moss.py] *)

Module mos_moss.

Definition MOSS_ID : string := "1234".

Definition LANGUAGE_EXTENSIONS : gmap string (list string) :=
  {[ "java" := ["java"]; "cpp" := [".cpp"; ".h"; ".hpp"] ]}.

Definition cleanup_files (fs : node) (p : path) : result node :=
  let macos_folders := glob.recursive_name fs p "__MACOSX" in
  for_each shutil.rmtree macos_folders fs.

Definition flatten_folder (fs : node) (destination : path) : result node :=
  content ← os.listdir fs destination;
  match content with
  | [c] =>
      let folder := destination ++ [c] in
      names ← os.listdir fs folder;
      fs' ← for_each (λ st f, shutil.move st (folder ++ [f]) destination)
              names fs;
      os.rmdir fs' folder
  | _ => Ok fs
  end.

(** [r"(\w+_\w*_\d+\d+)_(.+)\."] *)
Definition SUBMISSION_RE : re.pattern :=
  re.Pattern
    [ re.Mark 0;
      re.MaxRepeat 1 re.Word; re.In (re.Literal "_"%char);
      re.MaxRepeat 0 re.Word; re.In (re.Literal "_"%char);
      re.MaxRepeat 1 re.Digit; re.MaxRepeat 1 re.Digit;
      re.Mark 1;
      re.In (re.Literal "_"%char);
      re.Mark 2; re.MaxRepeat 1 re.AnyChar; re.Mark 3;
      re.In (re.Literal "."%char) ]
    2.

(** Lines 65-69 of [unzip_canvas_submission]. *)
Definition folder_name (original_name : bool) (filename : string)
  : result (option string) :=
  let res := re.match_ SUBMISSION_RE filename in
  try_except
    (if original_name then re.getitem res 2 else re.getitem res 1)
    TypeError
    (Ok (Some filename)).

(** Lines 77-78: what follows the extraction of one submission. *)
Definition after_extract (fs : node) (p : path) : result node :=
  fs' ← cleanup_files fs p;
  flatten_folder fs' p.

(** The condition of the [if] in [list_files]. *)
Definition keep (fs : node) (f : path) : bool :=
  os.isfile fs f
  && negb (endswith (path_str f) "pdf")
  && negb (endswith (path_str f) "jar")
  && (0 <? os.getsize fs f)%N.

Definition list_files (fs : node) (folder : path) (language : string)
  : list path :=
  let files :=
    flat_map (λ ext, glob.recursive_suffix fs folder ext)
      (items (default (OfStr "")
                (OfList <$> LANGUAGE_EXTENSIONS !! lower language))) in
  foldl (λ new_files f,
           if tuple_truthy [keep fs f] then new_files ++ [f] else new_files)
    [] files.

Definition fmt_paths (v : list path) : string :=
  String.concat "<br>" (map path_str v).

(** [create_moss_comments]; a path that is [None] or empty adds nothing,
    and neither does a sample size of [0]. *)
Definition create_moss_comments (max_submissions : Z)
    (submission_folders : list path) (base_files solutions : option path)
  : string :=
  let msg1 :=
    if supplied base_files
    then ["<b>Base files:</b> " +:+ default "" (path_str <$> base_files)]
    else [] in
  let msg2 :=
    if supplied solutions
    then ["<b>Solutions:</b> " +:+ default "" (path_str <$> solutions)]
    else [] in
  let msg3 :=
    if negb (max_submissions =? 0)%Z
    then ("<b>Max submissions:</b> " +:+ str_of_int max_submissions)
         :: match submission_folders with
            | [] => []
            | _ :: _ =>
                ["<b>Submissions in this batch:</b><br>"
                 +:+ fmt_paths submission_folders]
            end
    else [] in
  String.concat "<br><br>" (msg1 ++ msg2 ++ msg3).

(** Lines 129-134 of [stage_moss_files]: the folders of this batch. *)
Definition submission_folders (fs : node) (g : random.state)
    (zip_output : path) (max_submissions : Z) : list path * random.state :=
  if negb (max_submissions =? 0)%Z then
    let folders := glob.star fs zip_output in
    let '(folders, g') := random.shuffle folders g in
    (slice_to folders max_submissions, g')
  else ([zip_output], g).

Definition stage_moss_files (fs : node) (g : random.state)
    (zip_output : path) (language : string) (max_submissions : Z)
    (base_files solutions : option path)
  : result mosspy.Moss * random.state :=
  let moss := mosspy.new None language in
  let '(folders, g') := submission_folders fs g zip_output max_submissions in
  let files := flat_map (λ folder, list_files fs folder language) folders in
  let staged :=
    moss ← for_each (mosspy.addFile fs) files moss;
    moss ←
      (if supplied base_files then
         let files := list_files fs (default [] base_files) language in
         match files with
         | [] => Raise FileNotFoundError
         | _ :: _ => for_each (mosspy.addBaseFile fs) files moss
         end
       else Ok moss);
    moss ←
      (if supplied solutions then
         let files := list_files fs (default [] solutions) language in
         match files with
         | [] => Raise FileNotFoundError
         | _ :: _ => for_each (mosspy.addFile fs) files moss
         end
       else Ok moss);
    let moss :=
      mosspy.setCommentString moss
        (create_moss_comments max_submissions folders base_files solutions) in
    Ok (mosspy.setDirectoryMode moss 1) in
  (staged, g').

(** [send_to_moss]; [getenv] is the value of the environment variable
    [user_id], and [url] is what the service answers to the upload. *)
Definition send_to_moss (getenv : option string) (url : string)
    (moss : mosspy.Moss) (report_path : string) (user_id : option string)
    (no_report : bool) (count : Z) : result unit * list event :=
  let moss :=
    mosspy.set_user_id moss (py_or (py_or user_id getenv) (Some MOSS_ID)) in
  if negb (truthy (mosspy.user_id moss)) then (Raise ValueError, [])
  else
    let sent := [Send moss] in
    let page :=
      [Mkdir report_path;
       SaveWebPage url
         (report_path +:+ "/report" +:+ str_of_int count +:+ ".html")] in
    if no_report then (Ok (), sent ++ page)
    else
      let dir := report_path +:+ "/report" +:+ str_of_int count in
      (Ok (), sent ++ page ++ [Mkdir dir; DownloadReport url dir 8]).




End mos_moss.

(** ** [run_moss.py] *)

Module run_moss.

Definition LANGUAGE_EXTENSIONS : gmap string (list string) :=
  {[ "java" := ["java"]; "cpp" := [".cpp"; ".h"; ".hpp"] ]}.

(** [r"(\w+_\w*_\d+\d+)"] *)
Definition SUBMISSION_RE : re.pattern :=
  re.Pattern
    [ re.Mark 0;
      re.MaxRepeat 1 re.Word; re.In (re.Literal "_"%char);
      re.MaxRepeat 0 re.Word; re.In (re.Literal "_"%char);
      re.MaxRepeat 1 re.Digit; re.MaxRepeat 1 re.Digit;
      re.Mark 1 ]
    1.

(** Lines 34-38 of [unzip_canvas_submission] in [run_moss.py]. *)
Definition folder_name (original_name : bool) (filename : string)
  : result (option string) :=
  if original_name then Ok None
  else
    let folder_name := re.match_ SUBMISSION_RE filename in
    match folder_name with
    | Some _ => re.getitem folder_name 0
    | None => Ok None
    end.

(** The condition of the [if] in [stage_moss_files]. *)
Definition keep (fs : node) (f : path) : bool :=
  os.isfile fs f
  && negb (endswith (path_str f) "pdf")
  && negb (endswith (path_str f) "jar")
  && (0 <? os.getsize fs f)%N.

(** [stage_moss_files], on the module's client [moss]. *)
Definition stage_moss_files (fs : node) (moss : mosspy.Moss)
    (zip_output : path) (language : string) : result mosspy.Moss :=
  let extensions :=
    items (default (OfList [""])
             (OfList <$> LANGUAGE_EXTENSIONS !! lower language)) in
  let files :=
    flat_map (λ ext, glob.recursive_suffix fs zip_output ext) extensions in
  moss ←
    for_each (λ m f, if keep fs f then mosspy.addFile fs m f else Ok m)
      files moss;
  Ok (mosspy.setDirectoryMode moss 1).

End run_moss.

(** * Vocabulary of the properties *)

Fixpoint all_in (cs : re.charset) (u : string) : bool :=
  match u with
  | EmptyString => true
  | String c u' => re.in_charset cs c && all_in cs u'
  end.

(** [matches prog mk pos w mk']: the program [prog], started at position
    [pos] with the marks [mk], consumes exactly [w] and leaves the marks
    [mk']. *)
Inductive matches : list re.op → re.marks → nat → string → re.marks → Prop :=
  | matches_nil mk pos : matches [] mk pos "" mk
  | matches_in cs c rest mk pos w mk' :
      re.in_charset cs c = true →
      matches rest mk (S pos) w mk' →
      matches (re.In cs :: rest) mk pos (String c w) mk'
  | matches_repeat min cs u rest mk pos w mk' :
      min ≤ String.length u →
      all_in cs u = true →
      matches rest mk (pos + String.length u) w mk' →
      matches (re.MaxRepeat min cs :: rest) mk pos (u +:+ w) mk'
  | matches_mark i rest mk pos w mk' :
      matches rest (<[i := pos]> mk) pos w mk' →
      matches (re.Mark i :: rest) mk pos w mk'.

(** The extensions that [list_files] runs over. *)
Definition extensions_of (language : string) : list string :=
  items (default (OfStr "")
           (OfList <$> mos_moss.LANGUAGE_EXTENSIONS !! lower language)).

(** What the globs of [list_files] match, before the [if]. *)
Definition candidates (fs : node) (folder : path) (exts : list string)
  : list path :=
  flat_map (λ ext, glob.recursive_suffix fs folder ext) exts.

(** The identifier that [send_to_moss] hands to the client. *)
Definition effective_user_id (user_id getenv : option string)
  : option string :=
  if truthy user_id then user_id
  else if truthy getenv then getenv
  else Some mos_moss.MOSS_ID.


(** The two halves of C9: the same folder names, and the same files. *)
Definition same_folder_names : Prop :=
  ∀ original_name filename,
    mos_moss.folder_name original_name filename
    = run_moss.folder_name original_name filename.

Definition same_selection : Prop :=
  ∀ fs folder language moss f,
    run_moss.stage_moss_files fs (mosspy.new None "java") folder language
    = Ok moss →
    f ∈ mos_moss.list_files fs folder language ↔ f ∈ mosspy.files moss.

(** [graft d n fs] is [fs] with the node at [d] replaced by [n]. *)
Definition graft (d : path) (n : node) (fs : node) : node :=
  alter_at d (λ _, n) fs.

(** [within d op fs] runs [op] on the node at [d] and puts the result back. *)
Definition within (d : path) (op : result node) (fs : node) : result node :=
  n' ← op; Ok (graft d n' fs).

Definition is_dir (n : node) : bool :=
  match n with
  | Dir _ => true
  | File _ => false
  end.

(** [g] removes entries and changes nothing else: what is found after [g]
    was there before, and was of the same kind. *)
Definition shrinking (g : node → node) : Prop :=
  ∀ n y n', lookup (g n) y = Some n' →
    ∃ n0, lookup n y = Some n0 ∧ is_dir n0 = is_dir n'.

Fixpoint last_char (s : string) : option ascii :=
  match s with
  | EmptyString => None
  | String c EmptyString => Some c
  | String _ s' => last_char s'
  end.

(** Induction on trees: a property of a directory may use that it holds of
    every entry. *)
Fixpoint node_ind' (P : node → Prop) (HF : ∀ sz, P (File sz))
    (HD : ∀ es, Forall (λ e, P (snd e)) es → P (Dir es)) (n : node) : P n :=
  match n with
  | File sz => HF sz
  | Dir es =>
      HD es
        ((fix go (es : list (string * node)) : Forall (λ e, P (snd e)) es :=
            match es with
            | [] => @List.Forall_nil _ (λ e, P (snd e))
            | e :: es' =>
                @List.Forall_cons _ (λ e, P (snd e)) e es'
                  (node_ind' P HF HD (snd e)) (go es')
            end) es)
  end.

(** No component of the path is hidden. *)
Definition visible (p : path) : Prop :=
  Forall (λ c, glob.ishidden c = false) p.

(** The client with more files, and with more base files. *)
Definition with_files (m : mosspy.Moss) (l : list path) : mosspy.Moss :=
  mosspy.MkMoss (mosspy.user_id m) (mosspy.language m) (mosspy.files m ++ l)
    (mosspy.base_files m) (mosspy.comment m) (mosspy.directory_mode m).

Definition with_base_files (m : mosspy.Moss) (l : list path) : mosspy.Moss :=
  mosspy.MkMoss (mosspy.user_id m) (mosspy.language m) (mosspy.files m)
    (mosspy.base_files m ++ l) (mosspy.comment m) (mosspy.directory_mode m).

(** What [list_files] finds for an argument that is a path or [None]:
    nothing when the argument is [None] or empty. *)
Definition listed (fs : node) (language : string) (v : option path)
  : list path :=
  if supplied v then mos_moss.list_files fs (default [] v) language else [].

(** The client takes every path of the list: each is a regular file that
    is not empty. *)
Definition accepted (fs : node) (l : list path) : bool :=
  forallb (mosspy.accepts fs) l.

(** The events of a trace that save a page. *)
Definition saved_pages (trace : list event) : list (string * string) :=
  flat_map (λ ev, match ev with
                  | SaveWebPage url p => [(url, p)]
                  | _ => []
                  end) trace.

(** The events of a trace that download a report. *)
Definition downloads (trace : list event) : list (string * string) :=
  flat_map (λ ev, match ev with
                  | DownloadReport url p _ => [(url, p)]
                  | _ => []
                  end) trace.



(** What is at a path, as far as a listing shows it: nothing, a directory,
    or a file of some size. *)
Definition stat (fs : node) (p : path) : option (option N) :=
  match lookup fs p with
  | None => None
  | Some (Dir _) => Some None
  | Some (File sz) => Some (Some sz)
  end.

(** * Properties *)

(** ** Exceptions *)

Lemma try_except_other {A} (e e' : exn) (handler : result A) :
  e' ≠ e → try_except (Raise e') e handler = Raise e'.
Proof. intros Hne. unfold try_except. by case_decide. Qed.

Lemma try_except_ok {A} (a : A) (e : exn) (handler : result A) :
  try_except (Ok a) e handler = Ok a.
Proof. done. Qed.

(** ** The matcher *)

Section matcher.

Context {R : Type}.
Implicit Types (p : ascii → bool) (k : nat → string → option R).

(** A success of a repetition is a success of its continuation. *)
Lemma greedy_inv p k pos s r :
  re.greedy p k pos s = Some r → ∃ pos' s', k pos' s' = Some r.
Proof.
  revert pos. induction s as [|c s IH]; intros pos; simpl; [by eauto|].
  destruct (p c); [|by eauto].
  destruct (re.greedy p k (S pos) s) eqn:E; [|by eauto].
  intros [= <-]. eauto.
Qed.

Lemma at_least_inv min p k pos s r :
  re.at_least min p k pos s = Some r → ∃ pos' s', k pos' s' = Some r.
Proof.
  revert pos s. induction min as [|min IH]; intros pos s; simpl.
  - apply greedy_inv.
  - destruct s as [|c s]; [done|]. destruct (p c); [apply IH|done].
Qed.

(** A repetition succeeds as soon as its continuation can succeed later. *)
Lemma greedy_weaken {R'} p k (k' : nat → string → option R') pos s :
  (∀ pos' s', is_Some (k pos' s') → is_Some (k' pos' s')) →
  is_Some (re.greedy p k pos s) → is_Some (re.greedy p k' pos s).
Proof.
  intros Hk. revert pos. induction s as [|c s IH]; intros pos; simpl; [by auto|].
  destruct (p c); [|by auto].
  destruct (re.greedy p k (S pos) s) eqn:E.
  - intros _. destruct (IH (S pos)) as [r' ->]; [by rewrite E|]. by eauto.
  - intros H. destruct (re.greedy p k' (S pos) s); [by eauto|]. by apply Hk.
Qed.

Lemma at_least_weaken {R'} min p k (k' : nat → string → option R') pos s :
  (∀ pos' s', is_Some (k pos' s') → is_Some (k' pos' s')) →
  is_Some (re.at_least min p k pos s) → is_Some (re.at_least min p k' pos s).
Proof.
  intros Hk. revert pos s. induction min as [|min IH]; intros pos s; simpl.
  - by apply greedy_weaken.
  - destruct s as [|c s]; [done|]. destruct (p c); [apply IH|done].
Qed.

End matcher.

(** The marks of a successful run: those of the program are set, and those
    that were set stay set. *)
Lemma run_marks prog mk pos s mk' e :
  re.run prog mk pos s = Some (mk', e) →
  ∀ i, (re.Mark i ∈ prog ∨ is_Some (mk !! i)) → is_Some (mk' !! i).
Proof.
  revert mk pos s. induction prog as [|o prog IH]; intros mk pos s; simpl.
  - intros [= <- <-] i [Hi|Hi]; [by apply elem_of_nil in Hi|done].
  - destruct o as [cs|min cs|j].
    + destruct s as [|c s]; [done|]. destruct (re.in_charset cs c); [|done].
      intros H i [Hi|Hi]; apply (IH _ _ _ H); [|by right].
      apply elem_of_cons in Hi as [?|?]; [done|by left].
    + intros (pos' & s' & H)%at_least_inv i [Hi|Hi]; apply (IH _ _ _ H);
        [|by right].
      apply elem_of_cons in Hi as [?|?]; [done|by left].
    + intros H i Hi. apply (IH _ _ _ H). destruct (decide (i = j)) as [->|Hne].
      * right. by rewrite lookup_insert_eq.
      * destruct Hi as [Hi|Hi].
        -- apply elem_of_cons in Hi as [[=]|?]; [done|by left].
        -- right. by rewrite lookup_insert_ne.
Qed.

(** A program that matches still matches when cut short. *)
Lemma run_prefix prog1 prog2 mk pos s :
  is_Some (re.run (prog1 ++ prog2) mk pos s) → is_Some (re.run prog1 mk pos s).
Proof.
  revert mk pos s. induction prog1 as [|o prog1 IH]; intros mk pos s; simpl.
  - by eauto.
  - destruct o as [cs|min cs|j].
    + destruct s as [|c s]; [done|]. destruct (re.in_charset cs c); [|done].
      apply IH.
    + apply at_least_weaken. intros pos' s'. apply IH.
    + apply IH.
Qed.

Lemma match_groups_set p s m g :
  re.match_ p s = Some m →
  re.Mark (2 * g) ∈ re.code p → re.Mark (2 * g + 1) ∈ re.code p →
  is_Some (re.group m (S g)).
Proof.
  unfold re.match_. destruct (re.run _ _ _ _) as [[mk e]|] eqn:E; [|done].
  intros [= <-] H1 H2. unfold re.group; simpl.
  destruct (run_marks _ _ _ _ _ _ E (2 * g)) as [b Hb]; [by left|].
  destruct (run_marks _ _ _ _ _ _ E (2 * g + 1)) as [e' He]; [by left|].
  simpl in Hb, He. rewrite Hb, He. by eauto.
Qed.

Lemma match_ngroups p s m : re.match_ p s = Some m → re.ngroups m = re.groups p.
Proof.
  unfold re.match_. destruct (re.run _ _ _ _) as [[mk e]|]; [|done].
  by intros [= <-].
Qed.

(** ** What a match looks like *)

Lemma string_app_cons c (a b : string) : String c a +:+ b = String c (a +:+ b).
Proof. reflexivity. Qed.

Lemma string_app_nil_l (b : string) : "" +:+ b = b.
Proof. reflexivity. Qed.

Lemma string_app_nil_r (a : string) : a +:+ "" = a.
Proof. induction a as [|c a IH]; [done|]. by rewrite string_app_cons, IH. Qed.

Lemma string_app_assoc (a b c : string) : (a +:+ b) +:+ c = a +:+ b +:+ c.
Proof.
  induction a as [|x a IH]; [done|]. by rewrite !string_app_cons, IH.
Qed.

Lemma string_app_length (a b : string) :
  String.length (a +:+ b) = String.length a + String.length b.
Proof.
  induction a as [|x a IH]; [done|]. rewrite string_app_cons. simpl.
  by rewrite IH.
Qed.

Lemma greedy_consumes {R} cs (k : nat → string → option R) pos s r :
  re.greedy (re.in_charset cs) k pos s = Some r →
  ∃ u s', s = u +:+ s' ∧ all_in cs u = true
          ∧ k (pos + String.length u) s' = Some r.
Proof.
  revert pos. induction s as [|c s IH]; intros pos; simpl.
  - intros H. exists "", "". by rewrite Nat.add_0_r.
  - destruct (re.in_charset cs c) eqn:Hc.
    + destruct (re.greedy _ k (S pos) s) as [r'|] eqn:E.
      * intros [= <-]. destruct (IH _ E) as (u & s' & -> & Hu & Hk).
        exists (String c u), s'. simpl. rewrite Hc, Hu.
        by rewrite Nat.add_succ_r.
      * intros H. exists "", (String c s). by rewrite Nat.add_0_r.
    + intros H. exists "", (String c s). by rewrite Nat.add_0_r.
Qed.

Lemma at_least_consumes {R} min cs (k : nat → string → option R) pos s r :
  re.at_least min (re.in_charset cs) k pos s = Some r →
  ∃ u s', s = u +:+ s' ∧ min ≤ String.length u ∧ all_in cs u = true
          ∧ k (pos + String.length u) s' = Some r.
Proof.
  revert pos s. induction min as [|min IH]; intros pos s; simpl.
  - intros (u & s' & -> & Hu & Hk)%greedy_consumes.
    exists u, s'. repeat split; [lia|done..].
  - destruct s as [|c s]; [done|].
    destruct (re.in_charset cs c) eqn:Hc; [|done].
    intros (u & s' & -> & Hmin & Hu & Hk)%IH.
    exists (String c u), s'. simpl. rewrite Hc, Hu.
    repeat split; [lia|]. by rewrite Nat.add_succ_r.
Qed.

(** The matcher is sound: a successful run consumed a prefix of its input
    that [matches] the program. *)
Lemma run_sound prog mk pos s mk' e :
  re.run prog mk pos s = Some (mk', e) →
  ∃ w rest, s = w +:+ rest ∧ e = pos + String.length w
            ∧ matches prog mk pos w mk'.
Proof.
  revert mk pos s. induction prog as [|o prog IH]; intros mk pos s; simpl.
  - intros [= <- <-]. exists "", s. rewrite Nat.add_0_r.
    repeat split. constructor.
  - destruct o as [cs|min cs|i].
    + destruct s as [|c s]; [done|].
      destruct (re.in_charset cs c) eqn:Hc; [|done].
      intros (w & rest & -> & -> & Hm)%IH.
      exists (String c w), rest. simpl. rewrite Nat.add_succ_r.
      repeat split. by constructor.
    + intros (u & s' & -> & Hmin & Hu & Hk)%at_least_consumes.
      apply IH in Hk as (w & rest & -> & -> & Hm).
      exists (u +:+ w), rest.
      rewrite string_app_length, Nat.add_assoc.
      split; [by rewrite string_app_assoc|]. split; [done|].
      by constructor.
    + intros (w & rest & -> & -> & Hm)%IH.
      exists w, rest. repeat split. by constructor.
Qed.

Lemma substring_0_append (a b : string) :
  substring 0 (String.length a) (a +:+ b) = a.
Proof.
  induction a as [|c a IH]; [by destruct b|].
  rewrite string_app_cons. simpl. by rewrite IH.
Qed.

Lemma substring_skip_append (a b : string) (n : nat) :
  substring (String.length a) n (a +:+ b) = substring 0 n b.
Proof.
  induction a as [|c a IH]; [done|]. rewrite string_app_cons. simpl.
  by rewrite IH.
Qed.

Lemma substring_middle (a b c : string) :
  substring (String.length a) (String.length b) (a +:+ b +:+ c) = b.
Proof. by rewrite substring_skip_append, substring_0_append. Qed.

Ltac invert_matches :=
  repeat match goal with
         | H : matches (_ :: _) _ _ _ _ |- _ => inversion H; clear H; subst
         | H : matches [] _ _ _ _ |- _ => inversion H; clear H; subst
         end.

Ltac normalize_app :=
  repeat first
    [ rewrite string_app_assoc | rewrite string_app_cons
    | rewrite string_app_nil_l | rewrite string_app_nil_r ].

Lemma substring_after_char (a b c : string) (x : ascii) :
  substring (S (String.length a)) (String.length b) (a +:+ String x (b +:+ c))
  = b.
Proof.
  induction a as [|y a IH].
  - rewrite string_app_nil_l. simpl. apply substring_0_append.
  - rewrite string_app_cons. simpl. apply IH.
Qed.

(** The line above the pattern reads
    [[last][first]_[int]_[int]_[original_filename]]: a match splits the
    member name accordingly, group 1 is what stands before the third
    underscore and group 2 what stands between it and the last dot. *)
Lemma submission_match_shape (filename : string) (m : re.match_object) :
  re.match_ mos_moss.SUBMISSION_RE filename = Some m →
  ∃ u1 u2 d1 d2 original rest,
    let name := u1 +:+ "_" +:+ u2 +:+ "_" +:+ d1 +:+ d2 in
    filename = name +:+ "_" +:+ original +:+ "." +:+ rest
    ∧ re.group m 1 = Some name
    ∧ re.group m 2 = Some original
    ∧ (all_in re.Word u1 = true ∧ 1 ≤ String.length u1)
    ∧ all_in re.Word u2 = true
    ∧ (all_in re.Digit d1 = true ∧ 1 ≤ String.length d1)
    ∧ (all_in re.Digit d2 = true ∧ 1 ≤ String.length d2)
    ∧ (all_in re.AnyChar original = true ∧ 1 ≤ String.length original).
Proof.
  unfold re.match_.
  destruct (re.run _ _ _ _) as [[mk e]|] eqn:E; [|done].
  intros [= <-].
  apply run_sound in E as (w & rest & -> & -> & Hm).
  unfold mos_moss.SUBMISSION_RE in Hm. simpl in Hm.
  invert_matches.
  repeat match goal with
         | H : re.in_charset (re.Literal _) _ = true |- _ =>
             simpl in H; apply Ascii.eqb_eq in H; subst
         end.
  match goal with
  | |- context [re.Match ((?a +:+ String _ (?b +:+ String _
                    (?c +:+ ?d +:+ String _ (?o +:+ _)))) +:+ _)] =>
      rename a into w1, b into w2, c into n1, d into n2, o into orig
  end.
  exists w1, w2, n1, n2, orig, rest. cbv zeta.
  set (name := w1 +:+ "_" +:+ w2 +:+ "_" +:+ n1 +:+ n2).
  assert (String.length name
          = S (S (0 + String.length w1) + String.length w2)
            + String.length n1 + String.length n2) as Hlen.
  { unfold name. rewrite !string_app_length. simpl. lia. }
  rewrite <- Hlen.
  match goal with
  | |- context [re.Match ?s] =>
      assert (s = name +:+ "_" +:+ orig +:+ "." +:+ rest) as ->
        by (unfold name; normalize_app; reflexivity)
  end.
  split; [done|]. split; [|split].
  - unfold re.group. cbn [re.regs re.subject Nat.mul Nat.add].
    rewrite !lookup_insert_ne, !lookup_insert_eq by lia.
    rewrite lookup_insert_ne, lookup_insert_ne, lookup_insert_eq by lia.
    by rewrite Nat.sub_0_r, substring_0_append.
  - unfold re.group. cbn [re.regs re.subject Nat.mul Nat.add].
    rewrite lookup_insert_ne, lookup_insert_eq, lookup_insert_eq by lia.
    match goal with
    | |- context [substring _ ?n _] =>
        replace n with (String.length orig) by lia
    end.
    f_equal. apply (substring_after_char name orig ("." +:+ rest) "_").
  - done.
Qed.

(** ** Folder names *)

(** C2: when the name of a member matches the pattern, the folder is named
    by the captured group, the second one when the original name is kept
    and the first one otherwise; when it does not match, subscripting the
    failed match raises [TypeError], that exception and no other is caught,
    and the folder is named by the raw member name. *)
Theorem folder_name_captured_group_or_raw (original_name : bool)
    (filename : string) :
  let g := if original_name then 2 else 1 in
  match re.match_ mos_moss.SUBMISSION_RE filename with
  | Some m =>
      ∃ captured, re.group m g = Some captured
        ∧ mos_moss.folder_name original_name filename = Ok (Some captured)
  | None =>
      re.getitem None g = Raise TypeError
      ∧ mos_moss.folder_name original_name filename = Ok (Some filename)
      ∧ ∀ e, e ≠ TypeError →
          try_except (Raise e) TypeError (Ok (Some filename)) = Raise e
  end.
Proof.
  intros g. unfold mos_moss.folder_name.
  destruct (re.match_ _ _) as [m|] eqn:E.
  - assert (is_Some (re.group m g)) as [captured Hc].
    { subst g. destruct original_name.
      - apply (match_groups_set _ _ _ 1 E); simpl; set_solver.
      - apply (match_groups_set _ _ _ 0 E); simpl; set_solver. }
    exists captured. split; [done|].
    assert (re.getitem (Some m) g = Ok (Some captured)) as Hg.
    { unfold re.getitem. rewrite (match_ngroups _ _ _ E), <- Hc.
      subst g. by destruct original_name. }
    subst g. destruct original_name; by rewrite Hg.
  - split; [done|]. split.
    + by destruct original_name.
    + intros e He. by apply try_except_other.
Qed.

Example folder_name_canvas :
  mos_moss.folder_name false "doejohn_12345_678910_hw1.zip"
    = Ok (Some "doejohn_12345_678910")
  ∧ mos_moss.folder_name true "doejohn_12345_678910_hw1.zip" = Ok (Some "hw1")
  ∧ mos_moss.folder_name false "README.txt" = Ok (Some "README.txt").
Proof. by vm_compute. Qed.

(** ** File selection *)

Lemma language_extensions_keys (k : string) :
  mos_moss.LANGUAGE_EXTENSIONS !! k = None ↔ k ≠ "java" ∧ k ≠ "cpp".
Proof.
  unfold mos_moss.LANGUAGE_EXTENSIONS. split.
  - intros H. split; intros ->; by vm_compute in H.
  - intros [H1 H2]. by rewrite lookup_insert_ne, lookup_singleton_ne.
Qed.

Lemma language_extensions_same :
  run_moss.LANGUAGE_EXTENSIONS = mos_moss.LANGUAGE_EXTENSIONS.
Proof. done. Qed.

Lemma foldl_append_all {A} (acc l : list A) :
  foldl (λ new_files f, new_files ++ [f]) acc l = acc ++ l.
Proof.
  revert acc. induction l as [|x l IH]; intros acc; simpl.
  - by rewrite app_nil_r.
  - by rewrite IH, <- app_assoc.
Qed.

(** The condition of [list_files] is a tuple, so nothing is filtered. *)
Lemma list_files_unfiltered fs folder language :
  mos_moss.list_files fs folder language
  = candidates fs folder (extensions_of language).
Proof. unfold mos_moss.list_files. simpl. apply foldl_append_all. Qed.

(** C10: for a language whose lowercase form is not a key of
    [LANGUAGE_EXTENSIONS], the lookup falls back to an empty iterable, so
    there is no extension to glob for and [list_files] returns the empty
    list, whatever the folder holds. *)
Theorem list_files_unknown_language (fs : node) (folder : path)
    (language : string) :
  mos_moss.LANGUAGE_EXTENSIONS !! lower language = None →
  extensions_of language = [] ∧ mos_moss.list_files fs folder language = [].
Proof.
  intros H. rewrite list_files_unfiltered. unfold extensions_of.
  by rewrite H.
Qed.

Lemma list_files_unknown_language_witness :
  mos_moss.LANGUAGE_EXTENSIONS !! lower "Python" = None
  ∧ mos_moss.list_files (Dir [("sub", Dir [("a.py", File 7)])]) ["sub"]
      "Python" = [].
Proof.
  split; [reflexivity|].
  apply (list_files_unknown_language _ _ "Python"). reflexivity.
Defined.

Lemma with_files_nil (m : mosspy.Moss) : with_files m [] = m.
Proof. destruct m. unfold with_files. simpl. by rewrite app_nil_r. Qed.

Lemma with_base_files_nil (m : mosspy.Moss) : with_base_files m [] = m.
Proof. destruct m. unfold with_base_files. simpl. by rewrite app_nil_r. Qed.

(** A loop of [addFile] adds every path, or raises at the first one that
    the client does not take. *)
Lemma for_each_addFile fs (l : list path) (m : mosspy.Moss) :
  for_each (mosspy.addFile fs) l m
  = if accepted fs l then Ok (with_files m l) else Raise Exception.
Proof.
  revert m. induction l as [|f l IH]; intros m.
  - simpl. by rewrite with_files_nil.
  - cbn [for_each accepted forallb]. unfold mosspy.addFile.
    destruct (mosspy.accepts fs f); [|done]. cbn [mbind result_bind andb].
    rewrite IH. fold (accepted fs l). destruct (accepted fs l); [|done].
    unfold with_files. simpl. by rewrite <- app_assoc.
Qed.

Lemma for_each_addBaseFile fs (l : list path) (m : mosspy.Moss) :
  for_each (mosspy.addBaseFile fs) l m
  = if accepted fs l then Ok (with_base_files m l) else Raise Exception.
Proof.
  revert m. induction l as [|f l IH]; intros m.
  - simpl. by rewrite with_base_files_nil.
  - cbn [for_each accepted forallb]. unfold mosspy.addBaseFile.
    destruct (mosspy.accepts fs f); [|done]. cbn [mbind result_bind andb].
    rewrite IH. fold (accepted fs l). destruct (accepted fs l); [|done].
    unfold with_base_files. simpl. by rewrite <- app_assoc.
Qed.


(** What passes the condition of [run_moss.py] passes the test of the
    client. *)
Lemma run_moss_keep_accepts fs f :
  run_moss.keep fs f = true → mosspy.accepts fs f = true.
Proof.
  unfold run_moss.keep, mosspy.accepts.
  intros [[[H1 _]%andb_prop _]%andb_prop H4]%andb_prop.
  by rewrite H1, H4.
Qed.

(** [run_moss.py] stages the candidates that pass its condition, and the
    client takes each of them. *)
Lemma run_moss_staged_files fs moss zip_output language :
  run_moss.stage_moss_files fs moss zip_output language
  = Ok (mosspy.setDirectoryMode
          (with_files moss
             (List.filter (run_moss.keep fs)
                (candidates fs zip_output
                   (items (default (OfList [""])
                      (OfList <$> run_moss.LANGUAGE_EXTENSIONS
                                  !! lower language))))))
          1).
Proof.
  unfold run_moss.stage_moss_files, candidates. cbv zeta.
  generalize (flat_map (λ ext, glob.recursive_suffix fs zip_output ext)
    (items (default (OfList [""])
       (OfList <$> run_moss.LANGUAGE_EXTENSIONS !! lower language)))).
  intros l.
  assert (for_each
            (λ m f, if run_moss.keep fs f then mosspy.addFile fs m f
                    else Ok m) l moss
          = Ok (with_files moss (List.filter (run_moss.keep fs) l))) as ->;
    [|done].
  revert moss. induction l as [|f l IH]; intros moss.
  - simpl. by rewrite with_files_nil.
  - cbn [for_each List.filter].
    destruct (run_moss.keep fs f) eqn:Hk.
    + unfold mosspy.addFile. rewrite (run_moss_keep_accepts _ _ Hk).
      cbn [mbind result_bind]. rewrite IH. unfold with_files. simpl.
      by rewrite <- app_assoc.
    + cbn [mbind result_bind]. apply IH.
Qed.

(** X6: in [run_moss.py] the condition is a plain conjunction: staging
    returns, and whatever is staged is a regular file that is not empty and
    whose name ends neither in [pdf] nor in [jar]. *)
Lemma run_moss_stages_no_empty_pdf_jar fs zip_output language :
  ∃ moss,
    run_moss.stage_moss_files fs (mosspy.new None "java") zip_output language
    = Ok moss
    ∧ ∀ f, f ∈ mosspy.files moss →
        os.isfile fs f = true
        ∧ (0 < os.getsize fs f)%N
        ∧ endswith (path_str f) "pdf" = false
        ∧ endswith (path_str f) "jar" = false.
Proof.
  eexists. split; [apply run_moss_staged_files|].
  intros f. simpl. rewrite list_elem_of_In, filter_In. intros [_ Hk].
  unfold run_moss.keep in Hk.
  apply andb_prop in Hk as [Hk H4]. apply andb_prop in Hk as [Hk H3].
  apply andb_prop in Hk as [H1 H2].
  apply negb_true_iff in H2, H3. apply N.ltb_lt in H4. done.
Qed.

(** C1, in [mos_moss.py]: a folder with an empty [Empty.java].  The file
    is zero bytes long and [list_files] returns it, because the condition
    of its [if] is a one-element tuple; the same condition without the
    trailing comma, in [run_moss.py], rejects the file. *)
Theorem list_files_returns_empty_file :
  let fs := Dir [("sub", Dir [("Empty.java", File 0)])] in
  os.getsize fs ["sub"; "Empty.java"] = 0%N
  ∧ mos_moss.keep fs ["sub"; "Empty.java"] = false
  ∧ mos_moss.list_files fs ["sub"] "java" = [["sub"; "Empty.java"]]
  ∧ mosspy.files
      <$> run_moss.stage_moss_files fs (mosspy.new None "java") ["sub"] "java"
    = Ok [].
Proof. by vm_compute. Qed.

(** ** Names that end in [pdf] or [jar] *)

Lemma last_char_app (a b : string) :
  b ≠ "" → last_char (a +:+ b) = last_char b.
Proof.
  intros Hb. induction a as [|c a IH]; [done|].
  rewrite string_app_cons. simpl. rewrite IH.
  destruct (a +:+ b) eqn:E; [|done].
  destruct a; [|done]. by rewrite string_app_nil_l in E.
Qed.

Lemma substring_0_all (s : string) : substring 0 (String.length s) s = s.
Proof. induction s as [|c s IH]; [done|]. simpl. by rewrite IH. Qed.

Lemma substring_split (s : string) (k : nat) :
  k ≤ String.length s →
  s = substring 0 k s +:+ substring k (String.length s - k) s.
Proof.
  revert k. induction s as [|c s IH]; intros k Hk.
  - by destruct k.
  - destruct k as [|k].
    + by rewrite Nat.sub_0_r, substring_0_all.
    + simpl in Hk. cbn [substring]. rewrite string_app_cons.
      simpl. f_equal. apply IH. lia.
Qed.

Lemma endswith_inv (s x : string) :
  endswith s x = true → ∃ pre, s = pre +:+ x.
Proof.
  unfold endswith. intros [Hlen Heq]%andb_prop.
  apply Nat.leb_le in Hlen. apply String.eqb_eq in Heq.
  exists (substring 0 (String.length s - String.length x) s).
  pose proof (substring_split s (String.length s - String.length x)) as Hs.
  replace (String.length s - (String.length s - String.length x))
    with (String.length x) in Hs by lia.
  rewrite Heq in Hs. apply Hs. lia.
Qed.

Lemma endswith_last_char (s x : string) :
  x ≠ "" → endswith s x = true → last_char s = last_char x.
Proof.
  intros Hx [pre ->]%endswith_inv. by apply last_char_app.
Qed.

Lemma path_str_snoc (d : path) (name : string) :
  ∃ pre, path_str (d ++ [name]) = pre +:+ name.
Proof.
  unfold path_str. induction d as [|c d [pre IH]].
  - by exists "".
  - exists (c +:+ "/" +:+ pre).
    change (String.concat "/" ((c :: d) ++ [name]))
      with (match d ++ [name] with
            | [] => c
            | _ :: _ => c +:+ "/" +:+ String.concat "/" (d ++ [name])
            end).
    destruct (d ++ [name]) eqn:E; [by destruct d|].
    by rewrite IH, !string_app_assoc.
Qed.

Lemma language_extensions_values (k : string) (exts : list string) :
  mos_moss.LANGUAGE_EXTENSIONS !! k = Some exts →
  ∀ ext, ext ∈ exts →
    ext = "java" ∨ ext = ".cpp" ∨ ext = ".h" ∨ ext = ".hpp".
Proof.
  unfold mos_moss.LANGUAGE_EXTENSIONS. intros H ext Hin.
  destruct (decide (k = "java")) as [->|H1].
  { rewrite lookup_insert_eq in H. injection H as <-.
    apply list_elem_of_singleton in Hin. by left. }
  rewrite lookup_insert_ne in H by done.
  destruct (decide (k = "cpp")) as [->|H2].
  { rewrite lookup_singleton_eq in H. injection H as <-.
    apply elem_of_cons in Hin as [->|Hin]; [by auto|].
    apply elem_of_cons in Hin as [->|Hin]; [by auto|].
    apply list_elem_of_singleton in Hin as ->. by auto. }
  by rewrite lookup_singleton_ne in H.
Qed.

(** A candidate of a glob for [*ext] is a path whose last component ends
    in [ext]. *)
Lemma candidates_inv fs folder exts f :
  f ∈ candidates fs folder exts →
  ∃ d name ext, f = d ++ [name] ∧ ext ∈ exts ∧ endswith name ext = true.
Proof.
  unfold candidates, glob.recursive_suffix, glob.glob1_suffix.
  intros (ext & Hext & Hf)%list_elem_of_In%in_flat_map.
  apply in_flat_map in Hf as (d & _ & Hf).
  destruct (lookup fs d) as [[sz|es]|]; try done.
  apply in_map_iff in Hf as (name & <- & Hname).
  apply filter_In in Hname as [_ [_ Hends]%andb_prop].
  exists d, name, ext. by rewrite list_elem_of_In.
Qed.

(** X7: in [mos_moss.py] nothing filters, but the globs do not match a
    name that ends in [pdf] or [jar]: [list_files] returns none. *)
Lemma list_files_never_pdf_or_jar fs folder language f :
  f ∈ mos_moss.list_files fs folder language →
  endswith (path_str f) "pdf" = false ∧ endswith (path_str f) "jar" = false.
Proof.
  rewrite list_files_unfiltered. unfold extensions_of.
  destruct (mos_moss.LANGUAGE_EXTENSIONS !! lower language) as [exts|] eqn:E;
    simpl; [|intros Hin; by apply elem_of_nil in Hin].
  intros (d & name & ext & -> & Hext & Hends)%candidates_inv.
  pose proof (language_extensions_values _ _ E ext Hext) as Hcases.
  assert (ext ≠ "") as Hne by (destruct Hcases as [->|[->|[->| ->]]]; done).
  assert (name ≠ "") as Hname.
  { intros ->. apply endswith_inv in Hends as [pre Hpre].
    destruct pre; [|done]. by rewrite string_app_nil_l in Hpre. }
  destruct (path_str_snoc d name) as [pre Hpath].
  assert (last_char (path_str (d ++ [name])) = last_char ext) as Hlast.
  { rewrite Hpath, last_char_app by done. by apply endswith_last_char. }
  split.
  - destruct (endswith (path_str (d ++ [name])) "pdf") eqn:Hp; [|done].
    apply endswith_last_char in Hp; [|done]. rewrite Hlast in Hp.
    by destruct Hcases as [->|[->|[->| ->]]].
  - destruct (endswith (path_str (d ++ [name])) "jar") eqn:Hp; [|done].
    apply endswith_last_char in Hp; [|done]. rewrite Hlast in Hp.
    by destruct Hcases as [->|[->|[->| ->]]].
Qed.

(** ** The tree: lookups after updates, and locality *)

Lemma lookup_app fs (d q : path) :
  lookup fs (d ++ q) = lookup fs d ≫= λ n, lookup n q.
Proof.
  revert fs. induction d as [|c d IH]; intros fs; simpl; [done|].
  destruct fs as [sz|es]; [done|].
  destruct (lookup_entry c es) as [n|]; [apply IH|done].
Qed.

Lemma lookup_entry_alter_entry c c' g es :
  lookup_entry c' (alter_entry c g es)
  = if decide (c = c') then g <$> lookup_entry c' es else lookup_entry c' es.
Proof.
  unfold lookup_entry. induction es as [|[x n] es IH]; simpl.
  - by case_decide.
  - destruct (String.eqb_spec x c) as [->|Hxc]; simpl.
    + destruct (String.eqb_spec c c') as [->|Hcc]; simpl.
      * by rewrite decide_True.
      * by rewrite decide_False.
    + destruct (String.eqb_spec x c') as [->|Hxc']; simpl.
      * rewrite decide_False; [done|]. by intros ->.
      * apply IH.
Qed.

Lemma alter_entry_ext c g1 g2 es :
  (∀ n, g1 n = g2 n) → alter_entry c g1 es = alter_entry c g2 es.
Proof.
  intros Hg. induction es as [|e es IH]; simpl; [done|].
  by rewrite Hg, IH.
Qed.

Lemma alter_entry_compose c g1 g2 es :
  alter_entry c g2 (alter_entry c g1 es) = alter_entry c (g2 ∘ g1) es.
Proof.
  induction es as [|[x n] es IH]; simpl; [done|].
  destruct (String.eqb_spec x c) as [->|Hxc]; simpl.
  - by rewrite String.eqb_refl.
  - destruct (String.eqb_spec x c); [done|]. by rewrite IH.
Qed.

Lemma alter_entry_None c g es :
  lookup_entry c es = None → alter_entry c g es = es.
Proof.
  unfold lookup_entry. induction es as [|[x n] es IH]; simpl; [done|].
  destruct (String.eqb_spec x c); [done|]. intros H. by rewrite IH.
Qed.

Lemma alter_at_ext d g1 g2 fs :
  (∀ n, g1 n = g2 n) → alter_at d g1 fs = alter_at d g2 fs.
Proof.
  intros Hg. revert fs. induction d as [|c d IH]; intros fs; simpl; [done|].
  destruct fs as [sz|es]; [done|]. f_equal. by apply alter_entry_ext.
Qed.

Lemma alter_at_app d q g fs :
  alter_at (d ++ q) g fs = alter_at d (alter_at q g) fs.
Proof.
  revert fs. induction d as [|c d IH]; intros fs; simpl; [done|].
  destruct fs as [sz|es]; [done|]. f_equal. by apply alter_entry_ext.
Qed.

Lemma alter_at_compose d g1 g2 fs :
  alter_at d g2 (alter_at d g1 fs) = alter_at d (g2 ∘ g1) fs.
Proof.
  revert fs. induction d as [|c d IH]; intros fs; simpl; [done|].
  destruct fs as [sz|es]; [done|]. f_equal.
  rewrite alter_entry_compose. by apply alter_entry_ext.
Qed.

Lemma lookup_alter_at d g fs :
  lookup (alter_at d g fs) d = g <$> lookup fs d.
Proof.
  revert fs. induction d as [|c d IH]; intros fs; simpl; [done|].
  destruct fs as [sz|es]; [done|].
  rewrite lookup_entry_alter_entry, decide_True by done.
  destruct (lookup_entry c es) as [n|]; simpl; [apply IH|done].
Qed.

(** Only the node that [lookup] finds matters to [alter_at]. *)
Lemma alter_at_const d g fs n :
  lookup fs d = Some n → alter_at d g fs = alter_at d (λ _, g n) fs.
Proof.
  revert fs. induction d as [|c d IH]; intros fs; simpl; [by intros [= ->]|].
  destruct fs as [sz|es]; [done|].
  destruct (lookup_entry c es) as [n'|] eqn:E; [|done].
  intros H. f_equal. revert E. unfold lookup_entry.
  induction es as [|[x m] es IHes]; simpl; [done|].
  destruct (String.eqb_spec x c) as [->|Hxc]; simpl.
  - intros [= ->]. by rewrite (IH _ H).
  - intros E. by rewrite IHes.
Qed.

Lemma alter_at_id d fs n :
  lookup fs d = Some n → alter_at d (λ _, n) fs = fs.
Proof.
  revert fs. induction d as [|c d IH]; intros fs; simpl; [by intros [= ->]|].
  destruct fs as [sz|es]; [done|].
  destruct (lookup_entry c es) as [n'|] eqn:E; [|done].
  intros H. f_equal. revert E. unfold lookup_entry.
  induction es as [|[x m] es IHes]; simpl; [done|].
  destruct (String.eqb_spec x c) as [->|Hxc]; simpl.
  - intros [= ->]. by rewrite (IH _ H).
  - intros E. by rewrite IHes.
Qed.

Lemma split_last_app (d q q' : path) (b : string) :
  split_last q = Some (q', b) → split_last (d ++ q) = Some (d ++ q', b).
Proof.
  intros Hq. induction d as [|c d IH]; [done|].
  simpl. rewrite IH. destruct (d ++ q) eqn:E; [|done].
  apply app_eq_nil in E as [_ ->]. done.
Qed.

Lemma split_last_snoc (d : path) (b : string) : split_last (d ++ [b]) = Some (d, b).
Proof. rewrite (split_last_app d [b] [] b); [by rewrite app_nil_r|done]. Qed.

Lemma split_last_is_Some (q : path) : q ≠ [] → is_Some (split_last q).
Proof.
  induction q as [|c q IH]; [done|]. intros _. destruct q as [|c' q]; [by eauto|].
  destruct IH as [[q' b] Hq]; [done|].
  change (split_last (c :: c' :: q)) with
    (match split_last (c' :: q) with
     | Some (d, b) => Some (c :: d, b)
     | None => None
     end).
  rewrite Hq. eauto.
Qed.

Lemma graft_graft d x y fs : graft d y (graft d x fs) = graft d y fs.
Proof. unfold graft. by rewrite alter_at_compose. Qed.

Lemma lookup_graft d x fs n :
  lookup fs d = Some n → lookup (graft d x fs) d = Some x.
Proof. intros H. unfold graft. by rewrite lookup_alter_at, H. Qed.

Lemma graft_same d fs n : lookup fs d = Some n → graft d n fs = fs.
Proof. apply alter_at_id. Qed.

Lemma lookup_below fs d q n :
  lookup fs d = Some n → lookup fs (d ++ q) = lookup n q.
Proof. intros H. by rewrite lookup_app, H. Qed.

Lemma update_dir_local fs d q f n :
  lookup fs d = Some n →
  update_dir (d ++ q) f fs = graft d (update_dir q f n) fs.
Proof.
  intros H. unfold update_dir, graft.
  rewrite alter_at_app. by apply alter_at_const.
Qed.

Lemma unlink_local fs d q n :
  lookup fs d = Some n → q ≠ [] →
  unlink fs (d ++ q) = graft d (unlink n q) fs.
Proof.
  intros H Hq. destruct (split_last_is_Some q Hq) as [[q' b] Hs].
  unfold unlink. rewrite (split_last_app d q q' b Hs), Hs.
  by apply update_dir_local.
Qed.

Lemma link_local fs d q n x :
  lookup fs d = Some n → q ≠ [] →
  link fs (d ++ q) x = graft d (link n q x) fs.
Proof.
  intros H Hq. destruct (split_last_is_Some q Hq) as [[q' b] Hs].
  unfold link. rewrite (split_last_app d q q' b Hs), Hs.
  by apply update_dir_local.
Qed.

Lemma isdir_below fs d q n :
  lookup fs d = Some n → os.isdir fs (d ++ q) = os.isdir n q.
Proof. intros H. unfold os.isdir. by rewrite (lookup_below _ _ _ _ H). Qed.

Lemma exists_below fs d q n :
  lookup fs d = Some n → os.exists_ fs (d ++ q) = os.exists_ n q.
Proof. intros H. unfold os.exists_. by rewrite (lookup_below _ _ _ _ H). Qed.

Lemma listdir_below fs d q n :
  lookup fs d = Some n → os.listdir fs (d ++ q) = os.listdir n q.
Proof. intros H. unfold os.listdir. by rewrite (lookup_below _ _ _ _ H). Qed.

Lemma rename_local fs d s t n :
  lookup fs d = Some n → s ≠ [] → t ≠ [] →
  os.rename fs (d ++ s) (d ++ t) = within d (os.rename n s t) fs.
Proof.
  intros H Hs Ht. unfold os.rename, within.
  rewrite (lookup_below _ _ s _ H), (lookup_below _ _ t _ H).
  destruct (lookup n s) as [x|]; [|done].
  destruct (split_last_is_Some t Ht) as [[t' b] Hsp].
  rewrite (split_last_app d t t' b Hsp), Hsp.
  rewrite (isdir_below _ _ t' _ H).
  destruct (os.isdir n t'); [|done]. simpl negb. cbv iota.
  assert (bool_decide (d ++ s `prefix_of` d ++ t)
          = bool_decide (s `prefix_of` t)) as ->.
  { apply bool_decide_ext. split; [apply prefix_app_inv|apply prefix_app]. }
  assert (bool_decide (d ++ s = d ++ t) = bool_decide (s = t)) as ->.
  { apply bool_decide_ext. split; [apply app_inv_head|by intros ->]. }
  destruct (bool_decide (s `prefix_of` t) && negb (bool_decide (s = t)));
    [done|].
  assert (∀ fs0 n0, lookup fs0 d = Some n0 →
            link (unlink fs0 (d ++ s)) (d ++ t) x
            = graft d (link (unlink n0 s) t x) fs0) as Hmove.
  { intros fs0 n0 H0. rewrite (unlink_local _ _ _ _ H0 Hs).
    rewrite (link_local _ d t (unlink n0 s)); [apply graft_graft| |done].
    by apply (lookup_graft _ _ _ _ H0). }
  assert (link (unlink (unlink fs (d ++ t)) (d ++ s)) (d ++ t) x
          = graft d (link (unlink (unlink n t) s) t x) fs) as Hover.
  { rewrite (unlink_local _ _ _ _ H Ht).
    rewrite (Hmove _ (unlink n t)); [apply graft_graft|].
    by apply (lookup_graft _ _ _ _ H). }
  destruct x as [sz|es], (lookup n t) as [[sz'|[|e' es']]|]; simpl;
    rewrite ?Hover, ?(Hmove _ _ H); done.
Qed.

Lemma move_local fs d s t n :
  lookup fs d = Some n → s ≠ [] →
  shutil.move fs (d ++ s) (d ++ t) = within d (shutil.move n s t) fs.
Proof.
  intros H Hs. unfold shutil.move.
  rewrite (isdir_below _ _ t _ H).
  assert (bool_decide (d ++ s = d ++ t) = bool_decide (s = t)) as ->.
  { apply bool_decide_ext. split; [apply app_inv_head|by intros ->]. }
  destruct (os.isdir n t) eqn:Hdir.
  - case_bool_decide as Hst.
    + subst t. by apply rename_local.
    + destruct (split_last_is_Some s Hs) as [[s' b] Hsp].
      rewrite (split_last_app d s s' b Hsp), Hsp. simpl.
      rewrite <- app_assoc, (exists_below _ _ _ _ H).
      destruct (os.exists_ n (t ++ [b])); [done|].
      apply rename_local; [done..|]. by destruct t.
  - destruct t as [|c t].
    + unfold os.rename, within. rewrite (lookup_below _ _ s _ H).
      destruct n as [sz|es]; [|done]. by destruct s.
    + by apply rename_local.
Qed.

Lemma rmdir_local fs d q n :
  lookup fs d = Some n → q ≠ [] →
  os.rmdir fs (d ++ q) = within d (os.rmdir n q) fs.
Proof.
  intros H Hq. unfold os.rmdir, within.
  rewrite (lookup_below _ _ q _ H).
  destruct (lookup n q) as [[sz|[|e es]]|]; simpl; try done.
  by rewrite (unlink_local _ _ _ _ H Hq).
Qed.

Lemma for_each_local {A} d (body_g body_l : node → A → result node) :
  (∀ fs n x, lookup fs d = Some n →
     body_g fs x = within d (body_l n x) fs) →
  ∀ xs fs n, lookup fs d = Some n →
    for_each body_g xs fs = within d (for_each body_l xs n) fs.
Proof.
  intros Hbody xs. induction xs as [|x xs IH]; intros fs n H; simpl.
  - unfold within. simpl. by rewrite (graft_same _ _ _ H).
  - rewrite (Hbody _ _ _ H). unfold within.
    destruct (body_l n x) as [n1|e]; simpl; [|done].
    rewrite (IH _ n1); [|by apply (lookup_graft _ _ _ _ H)].
    unfold within. destruct (for_each body_l xs n1); simpl; [|done].
    by rewrite graft_graft.
Qed.

(** [flatten_folder] touches the destination only. *)
Lemma flatten_folder_local fs d n :
  lookup fs d = Some n →
  mos_moss.flatten_folder fs d = within d (mos_moss.flatten_folder n []) fs.
Proof.
  intros H. unfold mos_moss.flatten_folder.
  rewrite <- (app_nil_r d) at 1. rewrite (listdir_below _ _ _ _ H).
  destruct (os.listdir n []) as [content|e]; [|done]. simpl.
  destruct content as [|c [|c' content]];
    try by (unfold within; simpl; rewrite (graft_same _ _ _ H)).
  rewrite (listdir_below _ _ _ _ H). simpl.
  destruct (os.listdir n [c]) as [names|e]; [|done]. simpl.
  rewrite (for_each_local d _ (λ st f, shutil.move st ([c] ++ [f]) []) )
    with (n := n); [|intros fs0 n0 f H0|done].
  - unfold within. destruct (for_each _ names n) as [n1|e]; [|done]. simpl.
    rewrite (rmdir_local _ _ _ n1); [|by apply (lookup_graft _ _ _ _ H)|done].
    unfold within. destruct (os.rmdir n1 [c]); simpl; [|done].
    by rewrite graft_graft.
  - rewrite <- (app_nil_r d) at 2. rewrite <- app_assoc.
    by apply move_local.
Qed.

Lemma lookup_entry_cons c x n es :
  lookup_entry c ((x, n) :: es)
  = if decide (x = c) then Some n else lookup_entry c es.
Proof.
  unfold lookup_entry. simpl.
  destruct (String.eqb_spec x c); by case_decide.
Qed.

Lemma lookup_entry_None c es : c ∉ map fst es → lookup_entry c es = None.
Proof.
  induction es as [|[x n] es IH]; [done|]. simpl. intros Hc.
  rewrite lookup_entry_cons, decide_False.
  - apply IH. intros ?. apply Hc. by right.
  - intros ->. apply Hc. by left.
Qed.

Lemma remove_entry_notin c es : c ∉ map fst es → remove_entry c es = es.
Proof.
  unfold remove_entry. induction es as [|[x n] es IH]; [done|]. simpl.
  intros Hc. destruct (String.eqb_spec x c) as [->|Hne]; simpl.
  - destruct Hc. by left.
  - rewrite IH; [done|]. intros ?. apply Hc. by right.
Qed.

Lemma remove_entry_head c n es :
  c ∉ map fst es → remove_entry c ((c, n) :: es) = es.
Proof.
  intros Hc. unfold remove_entry. simpl. rewrite String.eqb_refl. simpl.
  by apply remove_entry_notin.
Qed.

(** One turn of the loop of [flatten_folder]: the first item that is left
    in the wrapping folder [w] goes to the end of the destination. *)
Lemma move_up_one w f x todo moved :
  f ≠ w → f ∉ map fst moved → f ∉ map fst todo →
  shutil.move (Dir ((w, Dir ((f, x) :: todo)) :: moved)) ([w] ++ [f]) []
  = Ok (Dir ((w, Dir todo) :: moved ++ [(f, x)])).
Proof.
  intros Hfw Hmoved Htodo.
  assert (∀ n, lookup_entry f ((w, n) :: moved) = None) as Hf.
  { intros n. rewrite lookup_entry_cons, decide_False by done.
    by apply lookup_entry_None. }
  assert (∀ n, lookup_entry w ((w, n) :: moved) = Some n) as Hw.
  { intros n. by rewrite lookup_entry_cons, decide_True. }
  assert (lookup_entry f ((f, x) :: todo) = Some x) as Hx.
  { by rewrite lookup_entry_cons, decide_True. }
  assert (bool_decide ([w; f] `prefix_of` [f]) = false) as Hp.
  { apply bool_decide_eq_false. intros Hp. apply prefix_length in Hp.
    simpl in Hp. lia. }
  unfold shutil.move, os.isdir, os.exists_, os.rename. simpl.
  rewrite Hf, Hw, Hx, Hp. simpl.
  assert (link (unlink (Dir ((w, Dir ((f, x) :: todo)) :: moved)) [w; f])
            [f] x
          = Dir ((w, Dir todo) :: moved ++ [(f, x)])) as ->.
  { unfold link, unlink, update_dir, add_entry.
    cbn [split_last alter_at alter_entry fst snd].
    rewrite String.eqb_refl. cbn [alter_at].
    by rewrite remove_entry_head. }
  by destruct x.
Qed.

Lemma move_up_all w todo moved :
  NoDup (map fst (moved ++ todo)) → w ∉ map fst todo →
  for_each (λ st f, shutil.move st ([w] ++ [f]) []) (map fst todo)
    (Dir ((w, Dir todo) :: moved))
  = Ok (Dir ((w, Dir []) :: moved ++ todo)).
Proof.
  revert moved. induction todo as [|[f x] todo IH]; intros moved Hnd Hw.
  - simpl. by rewrite app_nil_r.
  - rewrite map_app in Hnd. simpl in Hnd.
    apply NoDup_app in Hnd as (Hm & Hdisj & Ht).
    apply NoDup_cons in Ht as [Hf Ht].
    cbn [map fst for_each].
    rewrite move_up_one.
    + simpl. rewrite IH.
      * by rewrite <- app_assoc.
      * rewrite <- app_assoc, map_app. simpl.
        apply NoDup_app. split; [done|]. split; [done|].
        by apply NoDup_cons.
      * intros ?. apply Hw. by right.
    + intros ->. apply Hw. by left.
    + intros Hin. apply (Hdisj f Hin). by left.
    + done.
Qed.

(** With nothing in the wrapping folder called like the folder itself,
    [flatten_folder] puts its items in the destination, in their order,
    and removes it. *)
Lemma flatten_folder_root w items :
  NoDup (map fst items) → w ∉ map fst items →
  mos_moss.flatten_folder (Dir [(w, Dir items)]) [] = Ok (Dir items).
Proof.
  intros Hnd Hw. unfold mos_moss.flatten_folder.
  assert (os.listdir (Dir [(w, Dir items)]) [] = Ok [w]) as -> by done.
  cbn [mbind result_bind app].
  assert (os.listdir (Dir [(w, Dir items)]) [w] = Ok (map fst items)) as ->.
  { unfold os.listdir. simpl. by rewrite lookup_entry_cons, decide_True. }
  cbn [mbind result_bind].
  match goal with
  | |- context [for_each ?body ?xs ?st] =>
      replace (for_each body xs st) with (Ok (Dir ((w, Dir []) :: items)))
        by (symmetry; by apply (move_up_all w items []))
  end.
  cbn [mbind result_bind]. unfold os.rmdir. simpl.
  rewrite lookup_entry_cons, decide_True by done.
  unfold unlink, update_dir.
  cbn [split_last alter_at]. by rewrite remove_entry_head.
Qed.

(** X14: a destination that holds a single folder, with nothing in it
    called like the folder itself, holds after [flatten_folder] the items
    of that folder, in their order, and the folder is gone; the rest of the
    tree is as it was. *)
Lemma flatten_folder_moves_up fs destination w items :
  lookup fs destination = Some (Dir [(w, Dir items)]) →
  NoDup (map fst items) → w ∉ map fst items →
  mos_moss.flatten_folder fs destination
  = Ok (graft destination (Dir items) fs).
Proof.
  intros H Hnd Hw. rewrite (flatten_folder_local _ _ _ H).
  by rewrite flatten_folder_root.
Qed.

(** X15: a destination that does not hold exactly one entry, be it empty
    or with several entries, is left as it is. *)
Lemma flatten_folder_keeps_several fs destination es :
  lookup fs destination = Some (Dir es) → length es ≠ 1 →
  mos_moss.flatten_folder fs destination = Ok fs.
Proof.
  intros H Hlen. unfold mos_moss.flatten_folder, os.listdir. rewrite H. simpl.
  by destruct es as [|e [|e' es]].
Qed.

(** ** What [cleanup_files] does remove *)

Lemma lookup_entry_remove_entry b c es :
  lookup_entry c (remove_entry b es)
  = if decide (b = c) then None else lookup_entry c es.
Proof.
  unfold remove_entry. induction es as [|[x n] es IH]; simpl.
  - by case_decide.
  - destruct (String.eqb_spec x b) as [->|Hxb]; simpl.
    + rewrite IH, lookup_entry_cons. by repeat case_decide.
    + rewrite !lookup_entry_cons, IH. repeat case_decide; by subst.
Qed.

Lemma shrinking_remove b :
  shrinking (λ d, match d with
                  | Dir es => Dir (remove_entry b es)
                  | File sz => File sz
                  end).
Proof.
  intros [sz|es] y n'; [by eauto|].
  destruct y as [|c y]; simpl; [intros [= <-]; by eauto|].
  rewrite lookup_entry_remove_entry. case_decide; [done|].
  destruct (lookup_entry c es); by eauto.
Qed.

Lemma shrinking_alter_at d g : shrinking g → shrinking (alter_at d g).
Proof.
  intros Hg. induction d as [|c d IH]; [done|].
  intros [sz|es] y n'; simpl; [by eauto|].
  destruct y as [|c' y]; simpl; [intros [= <-]; by eauto|].
  rewrite lookup_entry_alter_entry. case_decide as Hc; [subst c'|].
  - destruct (lookup_entry c es) as [n1|]; simpl; [apply IH|done].
  - destruct (lookup_entry c' es); by eauto.
Qed.

Lemma shrinking_unlink x : shrinking (λ fs, unlink fs x).
Proof.
  unfold unlink. destruct (split_last x) as [[d b]|].
  - apply shrinking_alter_at, shrinking_remove.
  - intros n y n'. by eauto.
Qed.

Lemma lookup_unlink_self fs d b : lookup (unlink fs (d ++ [b])) (d ++ [b]) = None.
Proof.
  unfold unlink, update_dir. rewrite split_last_snoc.
  rewrite lookup_app, lookup_alter_at.
  destruct (lookup fs d) as [[sz|es]|]; simpl; [done| |done].
  by rewrite lookup_entry_remove_entry, decide_True.
Qed.

Lemma rmtree_unlink fs x fs' :
  shutil.rmtree fs x = Ok fs' → fs' = unlink fs x.
Proof.
  unfold shutil.rmtree. destruct (lookup fs x) as [[sz|es]|]; by intros [= <-].
Qed.

(** Removals do not create anything. *)
Lemma for_each_rmtree_shrinks xs fs fs' y n' :
  for_each shutil.rmtree xs fs = Ok fs' →
  lookup fs' y = Some n' →
  ∃ n0, lookup fs y = Some n0 ∧ is_dir n0 = is_dir n'.
Proof.
  revert fs. induction xs as [|x xs IH]; intros fs; simpl.
  - intros [= <-]. by eauto.
  - destruct (shutil.rmtree fs x) as [fs1|e] eqn:E; [|done]. simpl.
    intros Hrest Hy. destruct (IH _ Hrest Hy) as (n1 & H1 & Hk1).
    apply rmtree_unlink in E as ->.
    destruct (shrinking_unlink x fs y n1 H1) as (n0 & H0 & Hk0).
    exists n0. split; [done|]. by rewrite Hk0.
Qed.

(** What was removed stays removed. *)
Lemma for_each_rmtree_removes xs fs fs' d b :
  for_each shutil.rmtree xs fs = Ok fs' →
  d ++ [b] ∈ xs → lookup fs' (d ++ [b]) = None.
Proof.
  revert fs. induction xs as [|x xs IH]; intros fs; simpl.
  - intros _ Hin. by apply elem_of_nil in Hin.
  - destruct (shutil.rmtree fs x) as [fs1|e] eqn:E; [|done]. simpl.
    intros Hrest Hin.
    destruct (decide (d ++ [b] ∈ xs)) as [Hxs|Hxs]; [by apply (IH fs1)|].
    apply elem_of_cons in Hin as [<-|?]; [|done].
    apply rmtree_unlink in E as ->.
    destruct (lookup fs' (d ++ [b])) as [n'|] eqn:Hl; [|done].
    destruct (for_each_rmtree_shrinks _ _ _ _ _ Hrest Hl) as (n0 & H0 & _).
    by rewrite lookup_unlink_self in H0.
Qed.

(** [**] reaches every directory below which no name is hidden. *)
Lemma rlistdir_complete n q es :
  q ≠ [] → Forall (λ c, glob.ishidden c = false) q →
  lookup n q = Some (Dir es) → q ∈ glob.rlistdir n.
Proof.
  revert n. induction q as [|c q IH]; intros n Hne Hvis; [done|].
  apply Forall_cons in Hvis as [Hc Hvis].
  destruct n as [sz|entries]; simpl; [done|].
  unfold lookup_entry.
  destruct (List.find _ entries) as [[x n1]|] eqn:Hfind; simpl; [|done].
  apply find_some in Hfind as [Hin Hx]. simpl in Hx.
  apply String.eqb_eq in Hx as ->.
  intros Hq. apply list_elem_of_In, in_flat_map.
  exists (c, n1). split; [done|]. simpl. rewrite Hc.
  destruct q as [|c' q].
  - simpl in Hq. injection Hq as ->. by left.
  - destruct n1 as [sz|es1]; [done|].
    right. apply in_map, list_elem_of_In. by apply IH.
Qed.

Lemma recursive_dirs_complete fs p q es :
  Forall (λ c, glob.ishidden c = false) q →
  lookup fs (p ++ q) = Some (Dir es) → p ++ q ∈ glob.recursive_dirs fs p.
Proof.
  intros Hvis Hq. unfold glob.recursive_dirs.
  rewrite lookup_app in Hq.
  destruct (lookup fs p) as [n|] eqn:Hp; [|done]. simpl in Hq.
  destruct q as [|c q].
  - simpl in Hq. injection Hq as ->. rewrite app_nil_r. by left.
  - destruct n as [sz|entries]; [done|].
    right. apply list_elem_of_In, in_map, list_elem_of_In.
    by apply (rlistdir_complete _ _ es).
Qed.

(** When [cleanup_files] returns, no directory that can be reached from
    [p] through names that are not hidden holds a [__MACOSX]. *)
Lemma cleanup_files_clears_visible fs p fs' q :
  mos_moss.cleanup_files fs p = Ok fs' →
  Forall (λ c, glob.ishidden c = false) q →
  os.isdir fs' (p ++ q) = true →
  os.exists_ fs' (p ++ q ++ ["__MACOSX"]) = false.
Proof.
  unfold mos_moss.cleanup_files. intros Hok Hvis Hdir.
  unfold os.exists_.
  destruct (lookup fs' (p ++ q ++ ["__MACOSX"])) as [m'|] eqn:Hm; [|done].
  exfalso.
  destruct (for_each_rmtree_shrinks _ _ _ _ _ Hok Hm) as (m & Hm0 & _).
  unfold os.isdir in Hdir.
  destruct (lookup fs' (p ++ q)) as [[sz|es']|] eqn:Hq; try done.
  destruct (for_each_rmtree_shrinks _ _ _ _ _ Hok Hq) as (n & Hq0 & Hk).
  destruct n as [sz|es]; [done|].
  assert ((p ++ q) ++ ["__MACOSX"]
          ∈ glob.recursive_name fs p "__MACOSX") as Hin.
  { unfold glob.recursive_name. apply list_elem_of_In, in_flat_map.
    exists (p ++ q). split.
    - apply list_elem_of_In. by apply (recursive_dirs_complete _ _ _ es).
    - unfold os.exists_. rewrite <- app_assoc, Hm0. by left. }
  pose proof (for_each_rmtree_removes _ _ _ _ _ Hok Hin) as Hnone.
  rewrite <- app_assoc in Hnone. by rewrite Hnone in Hm.
Qed.

(** ** Cleaning up and flattening *)

(** C6: a submission with a [__MACOSX] folder inside a hidden folder.
    [**] does not enter hidden folders, so the glob of [cleanup_files]
    finds nothing, the function returns normally, and the folder is still
    there. *)
Theorem cleanup_files_misses_hidden_parent :
  let fs :=
    Dir [("alice", Dir [(".idea", Dir [("__MACOSX", Dir [])]);
                        ("Main.java", File 10)])] in
  glob.recursive_name fs ["alice"] "__MACOSX" = []
  ∧ mos_moss.cleanup_files fs ["alice"] = Ok fs
  ∧ os.isdir fs ["alice"; ".idea"; "__MACOSX"] = true.
Proof. by vm_compute. Qed.

(** A [__MACOSX] inside a [__MACOSX] is listed by the glob as well; it is
    gone when its turn comes, [rmtree] raises, and what the glob listed
    after it stays. *)
Example cleanup_files_nested_raises :
  let fs :=
    Dir [("alice", Dir [("__MACOSX", Dir [("__MACOSX", Dir [])])])] in
  mos_moss.cleanup_files fs ["alice"] = Raise FileNotFoundError.
Proof. by vm_compute. Qed.

(** C7: a submission whose single folder [hw] holds a folder [hw].
    [shutil.move] refuses to move [hw/hw] onto the wrapping folder, which
    is still there, so [flatten_folder] raises and nothing is flattened. *)
Theorem flatten_folder_same_name_raises :
  let fs :=
    Dir [("bob", Dir [("hw", Dir [("hw", Dir [("B.java", File 2)]);
                                  ("README", File 5)])])] in
  os.listdir fs ["bob"] = Ok ["hw"]
  ∧ os.isdir fs ["bob"; "hw"] = true
  ∧ mos_moss.flatten_folder fs ["bob"] = Raise ShutilError.
Proof. by vm_compute. Qed.

(** The usual archive made on a Mac: one folder and its [__MACOSX] twin. *)
Example after_extract_mac_archive :
  mos_moss.after_extract
    (Dir [("alice",
           Dir [("hw1", Dir [("Main.java", File 10); ("src", Dir [])]);
                ("__MACOSX", Dir [("hw1", Dir [("._Main.java", File 1)])])])])
    ["alice"]
  = Ok (Dir [("alice", Dir [("Main.java", File 10); ("src", Dir [])])]).
Proof. by vm_compute. Qed.

Example flatten_folder_single_folder :
  mos_moss.flatten_folder
    (Dir [("bob", Dir [("hw", Dir [("B.java", File 2); ("lib", Dir [])])])])
    ["bob"]
  = Ok (Dir [("bob", Dir [("B.java", File 2); ("lib", Dir [])])]).
Proof. by vm_compute. Qed.

Example flatten_folder_single_file_raises :
  mos_moss.flatten_folder (Dir [("bob", Dir [("B.java", File 2)])]) ["bob"]
  = Raise NotADirectoryError.
Proof. by vm_compute. Qed.

(** ** Sending to the service *)

Lemma truthy_py_or_r (a b : option string) :
  truthy b = true → truthy (py_or a b) = true.
Proof. intros Hb. unfold py_or. by destruct (truthy a) eqn:Ha. Qed.

Lemma effective_user_id_or user_id getenv :
  py_or (py_or user_id getenv) (Some mos_moss.MOSS_ID)
  = effective_user_id user_id getenv.
Proof.
  unfold effective_user_id, py_or.
  destruct (truthy user_id) eqn:H1; [by rewrite H1|].
  by destruct (truthy getenv) eqn:H2.
Qed.

(** C3, as the claim has it: with no identifier in the argument and none in
    the environment, [send_to_moss] does not raise and uploads. *)
Lemma send_to_moss_without_credential_uploads :
  let moss := mosspy.new None "java" in
  let out := mos_moss.send_to_moss None "http://moss/1" moss "report" None
               false 1 in
  fst out = Ok ()
  ∧ Send (mosspy.set_user_id moss (Some "1234")) ∈ snd out.
Proof. split; [done|]. vm_compute. by left. Qed.

Lemma effective_user_id_truthy user_id getenv :
  truthy (effective_user_id user_id getenv) = true.
Proof.
  unfold effective_user_id.
  destruct (truthy user_id) eqn:H1; [done|].
  by destruct (truthy getenv) eqn:H2.
Qed.

(** C3, amended: the identifier is the argument, else the environment
    variable, else the constant [MOSS_ID]; that constant is not empty, so
    the check for a missing identifier never fires: [send_to_moss] never
    raises and the upload is the first thing it does. *)
Theorem send_to_moss_credential_fallback (getenv : option string)
    (url : string) (moss : mosspy.Moss) (report_path : string)
    (user_id : option string) (no_report : bool) (count : Z) :
  let out := mos_moss.send_to_moss getenv url moss report_path user_id
               no_report count in
  let uid := effective_user_id user_id getenv in
  truthy uid = true
  ∧ (truthy user_id = false ∧ truthy getenv = true → uid = getenv)
  ∧ (truthy user_id = false ∧ truthy getenv = false → uid = Some "1234")
  ∧ fst out = Ok ()
  ∧ ∃ rest, snd out = Send (mosspy.set_user_id moss uid) :: rest.
Proof.
  intros out uid.
  assert (truthy uid = true) as Huid by apply effective_user_id_truthy.
  split; [done|]. split.
  { intros [H1 H2]. subst uid. unfold effective_user_id. by rewrite H1, H2. }
  split.
  { intros [H1 H2]. subst uid. unfold effective_user_id. by rewrite H1, H2. }
  subst out. unfold mos_moss.send_to_moss. simpl.
  rewrite effective_user_id_or. fold uid. rewrite Huid. simpl.
  destruct no_report; simpl; split; eauto.
Qed.

(** [str] of an [int] is injective: two batch numbers never share a
    report. *)
Lemma str_of_int_inj (n m : Z) : str_of_int n = str_of_int m → n = m.
Proof.
  unfold str_of_int. intros H.
  apply (f_equal NilEmpty.int_of_string) in H.
  rewrite !NilEmpty.isi in H. injection H as H.
  by apply DecimalZ.to_int_inj.
Qed.

(** C8: for every batch number and report directory, [send_to_moss]
    creates the report directory, saves the page as [report{n}.html] in
    it, and then creates the sibling directory [report{n}] and downloads
    the report into it; with [no_report] it stops after the page. *)
Theorem send_to_moss_report_paths (getenv : option string) (url : string)
    (moss : mosspy.Moss) (report_path : string) (user_id : option string)
    (no_report : bool) (count : Z) :
  let out := mos_moss.send_to_moss getenv url moss report_path user_id
               no_report count in
  let page := report_path +:+ "/report" +:+ str_of_int count +:+ ".html" in
  let dir := report_path +:+ "/report" +:+ str_of_int count in
  fst out = Ok ()
  ∧ ∃ sent,
      snd out
      = [Send sent; Mkdir report_path; SaveWebPage url page]
        ++ (if no_report then []
            else [Mkdir dir; DownloadReport url dir 8]).
Proof.
  intros out page dir.
  subst out. unfold mos_moss.send_to_moss. simpl.
  rewrite effective_user_id_or, effective_user_id_truthy. simpl.
  destruct no_report; simpl; eauto.
Qed.

Example send_to_moss_batch_3 :
  snd (mos_moss.send_to_moss None "http://moss/1" (mosspy.new None "java")
         "./report" (Some "42") false 3)
  = [Send (mosspy.set_user_id (mosspy.new None "java") (Some "42"));
     Mkdir "./report"; SaveWebPage "http://moss/1" "./report/report3.html";
     Mkdir "./report/report3";
     DownloadReport "http://moss/1" "./report/report3" 8].
Proof. by vm_compute. Qed.

(** ** Staging *)


Lemma swap_Permutation {A} (x : list A) i j : random.swap x i j ≡ₚ x.
Proof.
  unfold random.swap.
  destruct (x !! i) as [xi|] eqn:Hi; [|done].
  destruct (x !! j) as [xj|] eqn:Hj; [|done].
  by apply Permutation_insert_swap.
Qed.

Lemma shuffle_from_Permutation {A} n (x : list A) g :
  fst (random.shuffle_from n x g) ≡ₚ x.
Proof.
  revert x g. induction n as [|n IH]; intros x g; [done|].
  cbn [random.shuffle_from].
  destruct (random.randbelow (S n + 1) g) as [j g'].
  rewrite IH. apply swap_Permutation.
Qed.

Lemma shuffle_Permutation {A} (x : list A) g : fst (random.shuffle x g) ≡ₚ x.
Proof. apply shuffle_from_Permutation. Qed.





Example submission_folders_sample_2 :
  fst (mos_moss.submission_folders
         (Dir [("out", Dir [("alice", Dir []); ("bob", Dir []);
                            ("carol", Dir [])])])
         [3; 1] ["out"] 2)
  = [["out"; "carol"]; ["out"; "bob"]].
Proof. by vm_compute. Qed.

(** [-n -1] is accepted as well; the slice then drops the last folder. *)
Example submission_folders_negative :
  fst (mos_moss.submission_folders
         (Dir [("out", Dir [("alice", Dir []); ("bob", Dir []);
                            ("carol", Dir [])])])
         [3; 1] ["out"] (-1))
  = [["out"; "carol"]; ["out"; "bob"]].
Proof. by vm_compute. Qed.

Example submission_folders_no_sampling :
  fst (mos_moss.submission_folders
         (Dir [("out", Dir [("alice", Dir []); ("bob", Dir [])])])
         [3; 1] ["out"] 0)
  = [["out"]].
Proof. by vm_compute. Qed.

(** The two optional steps of [stage_moss_files]: nothing found raises
    [FileNotFoundError], and a path that the client does not take raises
    [Exception]. *)
Lemma stage_step_base fs language (v : option path) (m : mosspy.Moss) :
  (if supplied v then
     match mos_moss.list_files fs (default [] v) language with
     | [] => Raise FileNotFoundError
     | _ :: _ =>
         for_each (mosspy.addBaseFile fs)
           (mos_moss.list_files fs (default [] v) language) m
     end
   else Ok m)
  = if supplied v && bool_decide (listed fs language v = [])
    then Raise FileNotFoundError
    else if negb (accepted fs (listed fs language v)) then Raise Exception
    else Ok (with_base_files m (listed fs language v)).
Proof.
  unfold listed. destruct (supplied v); simpl.
  - destruct (mos_moss.list_files fs (default [] v) language) as [|b bs] eqn:E;
      [done|].
    rewrite bool_decide_false by done. rewrite for_each_addBaseFile.
    by destruct (accepted fs (b :: bs)).
  - by rewrite with_base_files_nil.
Qed.

Lemma stage_step_files fs language (v : option path) (m : mosspy.Moss) :
  (if supplied v then
     match mos_moss.list_files fs (default [] v) language with
     | [] => Raise FileNotFoundError
     | _ :: _ =>
         for_each (mosspy.addFile fs)
           (mos_moss.list_files fs (default [] v) language) m
     end
   else Ok m)
  = if supplied v && bool_decide (listed fs language v = [])
    then Raise FileNotFoundError
    else if negb (accepted fs (listed fs language v)) then Raise Exception
    else Ok (with_files m (listed fs language v)).
Proof.
  unfold listed. destruct (supplied v); simpl.
  - destruct (mos_moss.list_files fs (default [] v) language) as [|b bs] eqn:E;
      [done|].
    rewrite bool_decide_false by done. rewrite for_each_addFile.
    by destruct (accepted fs (b :: bs)).
  - by rewrite with_files_nil.
Qed.

(** What [stage_moss_files] returns or raises, step by step: the files of
    the submissions go to the client first, then the base files, then the
    solutions. *)
Lemma stage_moss_files_result fs g zip_output language n base_files solutions :
  let folders := fst (mos_moss.submission_folders fs g zip_output n) in
  let subs :=
    flat_map (λ folder, mos_moss.list_files fs folder language) folders in
  let base := listed fs language base_files in
  let sols := listed fs language solutions in
  fst (mos_moss.stage_moss_files fs g zip_output language n base_files
         solutions)
  = if negb (accepted fs subs) then Raise Exception
    else if supplied base_files && bool_decide (base = [])
    then Raise FileNotFoundError
    else if negb (accepted fs base) then Raise Exception
    else if supplied solutions && bool_decide (sols = [])
    then Raise FileNotFoundError
    else if negb (accepted fs sols) then Raise Exception
    else
      Ok (mosspy.setDirectoryMode
            (mosspy.setCommentString
               (with_files
                  (with_base_files
                     (with_files (mosspy.new None language) subs) base)
                  sols)
               (mos_moss.create_moss_comments n folders base_files
                  solutions))
            1).
Proof.
  intros folders subs base sols. subst folders subs base sols.
  unfold mos_moss.stage_moss_files.
  destruct (mos_moss.submission_folders fs g zip_output n) as [folders g'].
  cbn [fst]. rewrite for_each_addFile.
  destruct (accepted fs (flat_map _ folders)); [|done].
  cbn [negb mbind result_bind]. cbv zeta. rewrite stage_step_base.
  destruct (supplied base_files && _); [done|].
  destruct (accepted fs (listed fs language base_files)); [|done].
  cbn [negb mbind result_bind]. rewrite stage_step_files.
  destruct (supplied solutions && _); [done|].
  by destruct (accepted fs (listed fs language solutions)).
Qed.

(** C5: two inputs with an empty file.  With an empty [Empty.java] among
    the submissions and base files that match nothing, [stage_moss_files]
    does not come to raise [FileNotFoundError]: [list_files] returns the
    empty file, for the reason of C1, the client refuses it, and the call
    ends in [Exception].  With an empty [Base.java] as the one base file,
    the listing matches something, and the file is not added: the client
    refuses it, and the call ends in [Exception] as well. *)
Theorem stage_moss_files_empty_file_raises_exception :
  let fs := Dir [("out", Dir [("alice", Dir [("Empty.java", File 0)])]);
                 ("starter", Dir [("notes.txt", File 3)])] in
  let fs' := Dir [("out", Dir [("alice", Dir [("Main.java", File 10)])]);
                  ("starter", Dir [("Base.java", File 0)])] in
  (mos_moss.list_files fs ["starter"] "java" = []
   ∧ fst (mos_moss.stage_moss_files fs [] ["out"] "java" 0
            (Some ["starter"]) None)
     = Raise Exception)
  ∧ (mos_moss.list_files fs' ["starter"] "java" = [["starter"; "Base.java"]]
     ∧ fst (mos_moss.stage_moss_files fs' [] ["out"] "java" 0
              (Some ["starter"]) None)
       = Raise Exception).
Proof. by vm_compute. Qed.

Example stage_moss_files_with_base :
  let fs := Dir [("out", Dir [("alice", Dir [("Main.java", File 10)])]);
                 ("starter", Dir [("Base.java", File 3)])] in
  fst (mos_moss.stage_moss_files fs [] ["out"] "java" 0 (Some ["starter"])
         None)
  = Ok (mosspy.MkMoss None "java" [["out"; "alice"; "Main.java"]]
          [["starter"; "Base.java"]] "<b>Base files:</b> starter" 1).
Proof. by vm_compute. Qed.

(** ** The two versions *)

(** C9, as the claim has it: the versions name the folder of [README.txt]
    differently, and for a language without extensions [mos_moss.py]
    selects nothing where [run_moss.py] selects every file; neither half of
    the claim holds. *)
Lemma versions_are_not_duplicates : ¬ same_folder_names ∧ ¬ same_selection.
Proof.
  split.
  - intros H. specialize (H false "README.txt"). by vm_compute in H.
  - intros H.
    destruct (H (Dir [("sub", Dir [("main.py", File 7)])]) ["sub"]
                "python" _ ["sub"; "main.py"] eq_refl) as [_ Hin].
    assert (["sub"; "main.py"] ∈ @nil path) as Hnil
      by (apply Hin; vm_compute; by left).
    by apply elem_of_nil in Hnil.
Qed.

Example versions_differ_on_inputs :
  mos_moss.folder_name false "README.txt" = Ok (Some "README.txt")
  ∧ run_moss.folder_name false "README.txt" = Ok None
  ∧ run_moss.folder_name true "doejohn_12345_678910_hw1.zip" = Ok None
  ∧ mos_moss.list_files (Dir [("sub", Dir [("main.py", File 7)])]) ["sub"]
      "python" = []
  ∧ mosspy.files
      <$> run_moss.stage_moss_files
            (Dir [("sub", Dir [("main.py", File 7)])])
            (mosspy.new None "java") ["sub"] "python"
    = Ok [["sub"; "main.py"]].
Proof. by vm_compute. Qed.

Lemma run_pattern_is_prefix :
  re.code mos_moss.SUBMISSION_RE
  = re.code run_moss.SUBMISSION_RE
    ++ [re.In (re.Literal "_"%char); re.Mark 2; re.MaxRepeat 1 re.AnyChar;
        re.Mark 3; re.In (re.Literal "."%char)].
Proof. done. Qed.

(** C9, amended: [mos_moss.py] always names the folder; [run_moss.py] has
    no name when the original name is to be kept, and otherwise has one
    whenever the pattern of [mos_moss.py] matches; for a language that is a
    key of [LANGUAGE_EXTENSIONS] both versions glob with the same
    extensions, and every file that [run_moss.py] selects is selected by
    [mos_moss.py]. *)
Theorem versions_agree_in_part (original_name : bool) (filename : string)
    (fs : node) (folder : path) (language : string) :
  (∃ name, mos_moss.folder_name original_name filename = Ok (Some name))
  ∧ run_moss.folder_name true filename = Ok None
  ∧ (is_Some (re.match_ mos_moss.SUBMISSION_RE filename) →
     ∃ name, run_moss.folder_name false filename = Ok (Some name))
  ∧ (is_Some (mos_moss.LANGUAGE_EXTENSIONS !! lower language) →
     items (default (OfList [""])
              (OfList <$> run_moss.LANGUAGE_EXTENSIONS !! lower language))
     = extensions_of language
     ∧ ∃ moss,
         run_moss.stage_moss_files fs (mosspy.new None "java") folder language
         = Ok moss
         ∧ ∀ f, f ∈ mosspy.files moss →
             f ∈ mos_moss.list_files fs folder language).
Proof.
  split; [|split; [done|split]].
  - unfold mos_moss.folder_name.
    destruct (re.match_ _ _) as [m|] eqn:E.
    + assert (re.ngroups m = 2) as Hn by apply (match_ngroups _ _ _ E).
      destruct original_name; simpl; rewrite Hn; simpl.
      * destruct (match_groups_set _ _ _ 1 E) as [s Hs];
          [simpl; set_solver..|].
        exists s. by rewrite <- Hs.
      * destruct (match_groups_set _ _ _ 0 E) as [s Hs];
          [simpl; set_solver..|].
        exists s. by rewrite <- Hs.
    + exists filename. by destruct original_name.
  - unfold re.match_ at 1. rewrite run_pattern_is_prefix.
    destruct (re.run (_ ++ _) _ _ _) as [r|] eqn:E; [|by intros [? [=]]].
    intros _.
    pose proof (run_prefix _ _ ∅ 0 filename (mk_is_Some _ _ E)) as [[mk e] Hr].
    unfold run_moss.folder_name, re.match_.
    rewrite Hr. simpl. eauto.
  - intros [exts Hl]. rewrite language_extensions_same. unfold extensions_of.
    rewrite Hl. split; [done|].
    eexists. split; [apply run_moss_staged_files|].
    intros f. rewrite list_files_unfiltered.
    rewrite language_extensions_same. unfold extensions_of. rewrite Hl. simpl.
    rewrite !list_elem_of_In, filter_In. by intros [? _].
Qed.

Lemma versions_agree_in_part_witness :
  ∃ name,
    run_moss.folder_name false "doejohn_12345_678910_hw1.zip"
    = Ok (Some name).
Proof.
  apply (versions_agree_in_part false "doejohn_12345_678910_hw1.zip"
           (Dir []) [] "java").
  vm_compute. eauto.
Defined.

Example folder_names_differ_on_a_match :
  mos_moss.folder_name false "doe_1_22_33_44.zip" = Ok (Some "doe_1_22_33")
  ∧ run_moss.folder_name false "doe_1_22_33_44.zip"
    = Ok (Some "doe_1_22_33_44").
Proof. by vm_compute. Qed.

(** * More of the code *)

(** ** Member names and folder names *)

Lemma all_in_app cs (a b : string) :
  all_in cs (a +:+ b) = all_in cs a && all_in cs b.
Proof.
  induction a as [|c a IH]; [done|].
  rewrite string_app_cons. simpl. by rewrite IH, andb_assoc.
Qed.

Lemma all_in_digit_word (u : string) :
  all_in re.Digit u = true → all_in re.Word u = true.
Proof.
  induction u as [|c u IH]; [done|]. simpl.
  intros [Hc Hu]%andb_prop. rewrite IH by done.
  unfold is_word. rewrite Hc. by rewrite !orb_true_r.
Qed.

Lemma has_char_app c (a b : string) :
  has_char c (a +:+ b) = has_char c a || has_char c b.
Proof.
  induction a as [|x a IH]; [done|].
  rewrite string_app_cons. simpl. by rewrite IH, orb_assoc.
Qed.

(** X1: when the name of a member matches the pattern, it reads
    [name_original.rest]; the folder is called [name], which is made of
    letters, digits and underscores only, or, when the original name is
    kept, [original], which is not empty and holds no line break. *)
Theorem folder_name_splits_member_name (filename : string) :
  is_Some (re.match_ mos_moss.SUBMISSION_RE filename) →
  ∃ name original rest,
    filename = name +:+ "_" +:+ original +:+ "." +:+ rest
    ∧ mos_moss.folder_name false filename = Ok (Some name)
    ∧ mos_moss.folder_name true filename = Ok (Some original)
    ∧ all_in re.Word name = true
    ∧ all_in re.AnyChar original = true
    ∧ 1 ≤ String.length original.
Proof.
  intros [m Hm].
  destruct (submission_match_shape _ _ Hm)
    as (u1 & u2 & d1 & d2 & original & rest & Hf & Hg1 & Hg2 & [Hu1 _] & Hu2
        & [Hd1 _] & [Hd2 _] & [Ho Hlen]).
  exists (u1 +:+ "_" +:+ u2 +:+ "_" +:+ d1 +:+ d2), original, rest.
  split; [done|].
  assert (re.ngroups m = 2) as Hn by apply (match_ngroups _ _ _ Hm).
  assert (re.getitem (Some m) 1
          = Ok (Some (u1 +:+ "_" +:+ u2 +:+ "_" +:+ d1 +:+ d2))) as G1.
  { unfold re.getitem. by rewrite Hn, <- Hg1. }
  assert (re.getitem (Some m) 2 = Ok (Some original)) as G2.
  { unfold re.getitem. by rewrite Hn, <- Hg2. }
  unfold mos_moss.folder_name. rewrite Hm, G1, G2.
  repeat split; try done.
  rewrite !all_in_app, Hu1, Hu2. simpl.
  by rewrite (all_in_digit_word d1), (all_in_digit_word d2).
Qed.

Lemma folder_name_splits_member_name_witness :
  ∃ name original rest,
    "doejohn_12345_678910_hw1.zip"
    = name +:+ "_" +:+ original +:+ "." +:+ rest
    ∧ mos_moss.folder_name false "doejohn_12345_678910_hw1.zip"
      = Ok (Some name).
Proof.
  destruct (folder_name_splits_member_name "doejohn_12345_678910_hw1.zip")
    as (name & original & rest & H1 & H2 & _).
  - vm_compute. eauto.
  - by exists name, original, rest.
Defined.

(** X2: a member name without an underscore, or without a dot, does not
    match, and the folder is called like the member, whatever the option. *)
Theorem folder_name_without_separators (original_name : bool)
    (filename : string) :
  has_char "_" filename = false ∨ has_char "." filename = false →
  mos_moss.folder_name original_name filename = Ok (Some filename).
Proof.
  intros Hno.
  destruct (re.match_ mos_moss.SUBMISSION_RE filename) as [m|] eqn:Hm.
  - exfalso.
    destruct (submission_match_shape _ _ Hm)
      as (u1 & u2 & d1 & d2 & original & rest & Hf & _).
    cbv zeta in Hf. rewrite Hf, !has_char_app in Hno. simpl in Hno.
    rewrite !orb_true_r in Hno. by destruct Hno.
  - unfold mos_moss.folder_name. rewrite Hm. by destruct original_name.
Qed.

Lemma folder_name_without_separators_witness :
  mos_moss.folder_name true "README" = Ok (Some "README").
Proof.
  apply folder_name_without_separators. right. reflexivity.
Defined.

(** ** What the globs match *)

Lemma lookup_entry_is_Some name es :
  name ∈ map fst es ↔ is_Some (lookup_entry name es).
Proof.
  unfold lookup_entry. induction es as [|[x n] es IH]; simpl.
  - split; [by intros ?%elem_of_nil|by intros [? ?]].
  - destruct (String.eqb_spec x name) as [->|Hne]; simpl.
    + split; [by eauto|intros _; by left].
    + rewrite <- IH. split.
      * by intros [?|?]%elem_of_cons.
      * intros ?. by right.
Qed.

Lemma rlistdir_visible n r : r ∈ glob.rlistdir n → r ≠ [] ∧ visible r.
Proof.
  revert r. induction n as [sz|es IH] using node_ind'; intros r; simpl.
  - by intros ?%elem_of_nil.
  - intros ([x n1] & Hin & Hr)%list_elem_of_In%in_flat_map. simpl in Hr.
    rewrite Forall_forall in IH.
    destruct (glob.ishidden x) eqn:Hx; [done|].
    destruct n1 as [sz|es1]; [done|].
    destruct Hr as [<-|Hr].
    + split; [done|]. by repeat constructor.
    + apply in_map_iff in Hr as (r' & <- & Hr').
      split; [done|]. constructor; [done|].
      apply (IH (x, Dir es1)); [by apply list_elem_of_In|].
      by apply list_elem_of_In.
Qed.

Lemma recursive_dirs_inv fs folder d :
  d ∈ glob.recursive_dirs fs folder → ∃ rel, d = folder ++ rel ∧ visible rel.
Proof.
  unfold glob.recursive_dirs.
  destruct (lookup fs folder) as [[sz|es]|]; try by intros ?%elem_of_nil.
  intros [->|Hd]%elem_of_cons.
  - exists []. split; [by rewrite app_nil_r|constructor].
  - apply list_elem_of_In, in_map_iff in Hd as (rel & <- & Hrel).
    exists rel. split; [done|].
    by apply (rlistdir_visible (Dir es)), list_elem_of_In.
Qed.

Lemma glob1_suffix_spec fs d ext f :
  f ∈ glob.glob1_suffix fs d ext
  ↔ ∃ name, f = d ++ [name] ∧ os.isdir fs d = true
            ∧ os.exists_ fs f = true ∧ glob.ishidden name = false
            ∧ endswith name ext = true.
Proof.
  unfold glob.glob1_suffix, os.isdir, os.exists_.
  destruct (lookup fs d) as [[sz|es]|] eqn:Hd.
  - split; [by intros ?%elem_of_nil|by intros (? & _ & ? & _)].
  - rewrite list_elem_of_In, in_map_iff. split.
    + intros (name & <- & [Hname [Hvis Hends]%andb_prop]%filter_In).
      exists name. rewrite lookup_app, Hd. simpl.
      apply list_elem_of_In, lookup_entry_is_Some in Hname as [n ->].
      by apply negb_true_iff in Hvis.
    + intros (name & -> & _ & Hex & Hvis & Hends).
      exists name. split; [done|]. apply filter_In.
      rewrite Hvis, Hends. split; [|done].
      apply list_elem_of_In, lookup_entry_is_Some.
      rewrite lookup_app, Hd in Hex. simpl in Hex.
      by destruct (lookup_entry name es).
  - split; [by intros ?%elem_of_nil|by intros (? & _ & ? & _)].
Qed.

(** What [folder/**/*ext] matches: the entries below [folder] that are
    reached through names that are not hidden and whose own name is not
    hidden and ends in [ext]. *)
Lemma recursive_suffix_spec fs folder ext f :
  f ∈ glob.recursive_suffix fs folder ext
  ↔ ∃ rel name, f = folder ++ rel ++ [name] ∧ visible (rel ++ [name])
                ∧ os.isdir fs (folder ++ rel) = true
                ∧ os.exists_ fs f = true ∧ endswith name ext = true.
Proof.
  unfold glob.recursive_suffix. rewrite list_elem_of_In, in_flat_map. split.
  - intros (d & Hd%list_elem_of_In & Hf%list_elem_of_In).
    apply recursive_dirs_inv in Hd as (rel & -> & Hrel).
    apply glob1_suffix_spec in Hf as (name & -> & Hdir & Hex & Hvis & Hends).
    exists rel, name. rewrite <- app_assoc in Hex |- *.
    repeat split; try done.
    apply Forall_app. split; [done|]. by repeat constructor.
  - intros (rel & name & -> & Hvis & Hdir & Hex & Hends).
    apply Forall_app in Hvis as [Hrel Hname].
    apply Forall_cons in Hname as [Hname _].
    exists (folder ++ rel). split.
    + unfold os.isdir in Hdir.
      destruct (lookup fs (folder ++ rel)) as [[sz|es]|] eqn:Hl; try done.
      by apply list_elem_of_In, (recursive_dirs_complete _ _ _ es).
    + apply list_elem_of_In, glob1_suffix_spec. exists name.
      rewrite app_assoc in Hex |- *. done.
Qed.

Lemma isfile_parent_isdir fs d name :
  os.isfile fs (d ++ [name]) = true → os.isdir fs d = true.
Proof.
  unfold os.isfile, os.isdir. rewrite lookup_app.
  by destruct (lookup fs d) as [[sz|es]|].
Qed.

Lemma isfile_exists fs f : os.isfile fs f = true → os.exists_ fs f = true.
Proof. unfold os.isfile, os.exists_. by destruct (lookup fs f). Qed.

Lemma candidates_spec fs folder exts f :
  f ∈ candidates fs folder exts
  ↔ ∃ ext, ext ∈ exts ∧ f ∈ glob.recursive_suffix fs folder ext.
Proof.
  unfold candidates. rewrite list_elem_of_In, in_flat_map.
  by setoid_rewrite list_elem_of_In.
Qed.

(** X3: for a folder without magic, whatever [list_files] returns exists
    below the folder, is reached through names none of which is hidden, and
    has a name that ends in one of the extensions of the language. *)
Theorem list_files_sound (fs : node) (folder : path) (language : string)
    (f : path) :
  glob.has_magic (path_str folder) = false →
  f ∈ mos_moss.list_files fs folder language →
  ∃ rel name ext,
    f = folder ++ rel ++ [name]
    ∧ visible (rel ++ [name])
    ∧ os.exists_ fs f = true
    ∧ is_Some (mos_moss.LANGUAGE_EXTENSIONS !! lower language)
    ∧ ext ∈ extensions_of language
    ∧ endswith name ext = true.
Proof.
  intros _. rewrite list_files_unfiltered, candidates_spec.
  intros (ext & Hext & Hf).
  apply recursive_suffix_spec in Hf as (rel & name & -> & Hvis & _ & Hex & He).
  exists rel, name, ext. repeat split; try done.
  unfold extensions_of in Hext.
  destruct (mos_moss.LANGUAGE_EXTENSIONS !! lower language); [by eauto|].
  by apply elem_of_nil in Hext.
Qed.

Lemma list_files_sound_witness :
  ∃ rel name ext,
    ["out"; "alice"; "src"; "A.java"] = ["out"] ++ rel ++ [name]
    ∧ visible (rel ++ [name])
    ∧ endswith name ext = true.
Proof.
  destruct (list_files_sound
              (Dir [("out", Dir [("alice",
                       Dir [("src", Dir [("A.java", File 4)])])])])
              ["out"] "java" ["out"; "alice"; "src"; "A.java"])
    as (rel & name & ext & H1 & H2 & _ & _ & _ & H3).
  - reflexivity.
  - vm_compute. by left.
  - by exists rel, name, ext.
Defined.

(** X4: for a folder without magic, [list_files] misses nothing: a file
    below the folder that is reached through names none of which is hidden,
    and whose name ends in an extension of the language, is returned. *)
Theorem list_files_complete (fs : node) (folder rel : path) (name : string)
    (language ext : string) :
  glob.has_magic (path_str folder) = false →
  ext ∈ extensions_of language →
  visible (rel ++ [name]) →
  os.isfile fs (folder ++ rel ++ [name]) = true →
  endswith name ext = true →
  folder ++ rel ++ [name] ∈ mos_moss.list_files fs folder language.
Proof.
  intros _ Hext Hvis Hfile Hends.
  rewrite list_files_unfiltered, candidates_spec. exists ext.
  split; [done|]. apply recursive_suffix_spec. exists rel, name.
  repeat split; try done.
  - apply (isfile_parent_isdir _ _ name). by rewrite <- app_assoc.
  - by apply isfile_exists.
Qed.

Lemma list_files_complete_witness :
  ["out"; "alice"; "src"; "util.hpp"]
  ∈ mos_moss.list_files
      (Dir [("out", Dir [("alice",
               Dir [("src", Dir [("util.hpp", File 4)])])])])
      ["out"] "CPP".
Proof.
  apply (list_files_complete _ ["out"] ["alice"; "src"] "util.hpp" "CPP"
           ".hpp").
  - reflexivity.
  - vm_compute. by repeat constructor.
  - by repeat constructor.
  - reflexivity.
  - reflexivity.
Defined.

Lemma substring_no_length (n : nat) (s : string) : substring n 0 s = "".
Proof.
  revert n. induction s as [|c s IH]; intros [|n]; simpl; try done.
Qed.

Lemma endswith_empty (s : string) : endswith s "" = true.
Proof. unfold endswith. simpl. by rewrite substring_no_length. Qed.

(** X5: for a language that is not a key of [LANGUAGE_EXTENSIONS],
    [stage_moss_files] of [run_moss.py] globs for every name: it returns,
    and each file below a folder without magic that is reached through
    names none of which is hidden and that passes the condition (a regular
    file, not empty, not ending in [pdf] or [jar]) is staged. *)
Theorem run_moss_unknown_language_stages_all (fs : node) (moss : mosspy.Moss)
    (zip_output rel : path) (name : string) (language : string) :
  glob.has_magic (path_str zip_output) = false →
  run_moss.LANGUAGE_EXTENSIONS !! lower language = None →
  visible (rel ++ [name]) →
  run_moss.keep fs (zip_output ++ rel ++ [name]) = true →
  ∃ moss',
    run_moss.stage_moss_files fs moss zip_output language = Ok moss'
    ∧ zip_output ++ rel ++ [name] ∈ mosspy.files moss'.
Proof.
  intros _ Hkey Hvis Hkeep.
  eexists. split; [apply run_moss_staged_files|]. rewrite Hkey.
  cbn [mosspy.setDirectoryMode with_files mosspy.files].
  apply elem_of_app. right. apply list_elem_of_In, filter_In.
  split; [|done]. apply list_elem_of_In, candidates_spec.
  exists "". split; [simpl; by left|].
  assert (os.isfile fs (zip_output ++ rel ++ [name]) = true) as Hfile.
  { unfold run_moss.keep in Hkeep.
    by apply andb_prop in Hkeep as [[[? _]%andb_prop _]%andb_prop _]. }
  apply recursive_suffix_spec. exists rel, name.
  repeat split; try done.
  - apply (isfile_parent_isdir _ _ name). by rewrite <- app_assoc.
  - by apply isfile_exists.
  - apply endswith_empty.
Qed.

Lemma run_moss_unknown_language_stages_all_witness :
  ∃ moss',
    run_moss.stage_moss_files
      (Dir [("out", Dir [("alice", Dir [("notes.txt", File 9)])])])
      (mosspy.new None "java") ["out"] "python"
    = Ok moss'
    ∧ ["out"; "alice"; "notes.txt"] ∈ mosspy.files moss'.
Proof.
  apply (run_moss_unknown_language_stages_all _ _ ["out"] ["alice"]
           "notes.txt" "python").
  - reflexivity.
  - reflexivity.
  - by repeat constructor.
  - reflexivity.
Defined.

(** ** More about staging *)

Lemma slice_to_subseteq {A} (l : list A) (n : Z) : slice_to l n ⊆ l.
Proof. unfold slice_to. destruct (0 <=? n)%Z; apply subseteq_take. Qed.











(** X10: the client that [stage_moss_files] returns holds, as files, what
    [list_files] finds in the folders of the batch, followed by what it
    finds in the solutions when these are given, and nothing else; its base
    files are what [list_files] finds in the base files when these are
    given. *)
Theorem stage_moss_files_client (fs : node) (g : random.state)
    (zip_output : path) (language : string) (n : Z)
    (base_files solutions : option path) (moss : mosspy.Moss) :
  fst (mos_moss.stage_moss_files fs g zip_output language n base_files
         solutions)
  = Ok moss →
  let listing v :=
    if supplied v then mos_moss.list_files fs (default [] v) language
    else [] in
  mosspy.files moss
  = flat_map (λ folder, mos_moss.list_files fs folder language)
      (fst (mos_moss.submission_folders fs g zip_output n))
    ++ listing solutions
  ∧ mosspy.base_files moss = listing base_files
  ∧ mosspy.directory_mode moss = 1%Z.
Proof.
  intros Hok listing. subst listing. cbv beta.
  rewrite stage_moss_files_result in Hok. cbv zeta in Hok.
  destruct (negb (accepted fs (flat_map _ _))); [done|].
  destruct (supplied base_files && _); [done|].
  destruct (negb (accepted fs (listed fs language base_files))); [done|].
  destruct (supplied solutions && _); [done|].
  destruct (negb (accepted fs (listed fs language solutions))); [done|].
  injection Hok as <-. done.
Qed.

Lemma stage_moss_files_client_witness :
  ∃ moss,
    fst (mos_moss.stage_moss_files
           (Dir [("out", Dir [("alice", Dir [("A.java", File 4)])]);
                 ("web", Dir [("S.java", File 8)])])
           [] ["out"] "java" 0 None (Some ["web"]))
    = Ok moss
    ∧ mosspy.files moss = [["out"; "alice"; "A.java"]; ["web"; "S.java"]]
    ∧ mosspy.base_files moss = [].
Proof.
  eexists. split; [reflexivity|].
  match goal with
  | |- mosspy.files ?m = _ ∧ _ =>
      destruct (stage_moss_files_client
                  (Dir [("out", Dir [("alice", Dir [("A.java", File 4)])]);
                        ("web", Dir [("S.java", File 8)])])
                  [] ["out"] "java" 0 None (Some ["web"]) m eq_refl)
        as (H1 & H2 & _)
  end.
  split; [exact H1|exact H2].
Defined.

(** ** More about cleaning up and flattening *)

Lemma stat_cons es c q :
  stat (Dir es) (c :: q)
  = match lookup_entry c es with
    | Some n => stat n q
    | None => None
    end.
Proof. unfold stat. simpl. by destruct (lookup_entry c es). Qed.

Lemma stat_nil_alter_at d g es :
  (∀ es', ∃ es'', g (Dir es') = Dir es'') →
  stat (alter_at d g (Dir es)) [] = Some None.
Proof. intros Hg. destruct d; simpl; [|done]. by destruct (Hg es) as [? ->]. Qed.

(** Removing the entries called [b] from a directory somewhere in the tree
    changes nothing at a path that [b] is not part of. *)
Lemma stat_alter_remove b d fs q :
  b ∉ q →
  stat (alter_at d (λ n, match n with
                         | Dir es => Dir (remove_entry b es)
                         | File sz => File sz
                         end) fs) q
  = stat fs q.
Proof.
  revert fs q. induction d as [|c d IH]; intros fs q Hb.
  - destruct fs as [sz|es]; [done|]. simpl.
    destruct q as [|c' q]; [done|].
    rewrite !stat_cons, lookup_entry_remove_entry.
    rewrite decide_False; [done|]. intros ->. apply Hb. by left.
  - destruct fs as [sz|es]; [done|]. simpl.
    destruct q as [|c' q]; [done|].
    rewrite !stat_cons, lookup_entry_alter_entry.
    case_decide as Hc; [subst c'|done].
    destruct (lookup_entry c es) as [n1|]; simpl; [|done].
    apply IH. intros ?. apply Hb. by right.
Qed.

Lemma stat_unlink fs d b q :
  b ∉ q → stat (unlink fs (d ++ [b])) q = stat fs q.
Proof.
  intros Hb. unfold unlink, update_dir. rewrite split_last_snoc.
  by apply stat_alter_remove.
Qed.

Lemma recursive_name_inv fs p name x :
  x ∈ glob.recursive_name fs p name → ∃ d, x = d ++ [name].
Proof.
  unfold glob.recursive_name.
  intros (d & _ & Hx)%list_elem_of_In%in_flat_map.
  destruct (os.exists_ fs (d ++ [name])); [|done].
  destruct Hx as [<-|[]]. by exists d.
Qed.

Lemma for_each_rmtree_stat b xs fs fs' q :
  (∀ x, x ∈ xs → ∃ d, x = d ++ [b]) →
  for_each shutil.rmtree xs fs = Ok fs' →
  b ∉ q → stat fs' q = stat fs q.
Proof.
  revert fs. induction xs as [|x xs IH]; intros fs Hxs; simpl.
  - by intros [= <-].
  - destruct (shutil.rmtree fs x) as [fs1|e] eqn:E; [|done]. simpl.
    intros Hrest Hb. apply rmtree_unlink in E as ->.
    destruct (Hxs x) as [d ->]; [by left|].
    rewrite (IH _ (λ y Hy, Hxs y (list_elem_of_further _ _ _ Hy)) Hrest Hb).
    by apply stat_unlink.
Qed.

(** X12: [cleanup_files] removes nothing but [__MACOSX] folders and what
    they hold: at a path that has no component [__MACOSX] there is after
    the call what there was before, a directory, or a file of the same
    size, or nothing. *)
Theorem cleanup_files_keeps_the_rest (fs : node) (p : path) (fs' : node)
    (q : path) :
  mos_moss.cleanup_files fs p = Ok fs' →
  "__MACOSX" ∉ q →
  stat fs' q = stat fs q.
Proof.
  unfold mos_moss.cleanup_files. intros Hok Hq.
  apply (for_each_rmtree_stat "__MACOSX" _ _ _ _
           (recursive_name_inv fs p "__MACOSX") Hok Hq).
Qed.

Lemma cleanup_files_keeps_the_rest_witness :
  let fs :=
    Dir [("alice", Dir [("hw", Dir [("Main.java", File 10)]);
                        ("__MACOSX", Dir [("hw", Dir [])])])] in
  ∃ fs', mos_moss.cleanup_files fs ["alice"] = Ok fs'
         ∧ stat fs' ["alice"; "hw"; "Main.java"] = Some (Some 10%N).
Proof.
  intros fs. eexists. split; [reflexivity|].
  rewrite (cleanup_files_keeps_the_rest fs ["alice"] _
             ["alice"; "hw"; "Main.java"] eq_refl); [reflexivity|].
  apply (bool_decide_unpack _). vm_compute. exact I.
Defined.

Lemma for_each_rmtree_existed xs fs fs' y :
  for_each shutil.rmtree xs fs = Ok fs' → y ∈ xs → is_Some (lookup fs y).
Proof.
  revert fs. induction xs as [|x xs IH]; intros fs; simpl.
  - by intros _ ?%elem_of_nil.
  - destruct (shutil.rmtree fs x) as [fs1|e] eqn:E; [|done]. simpl.
    intros Hrest [->|Hy]%elem_of_cons.
    + unfold shutil.rmtree in E. by destruct (lookup fs x).
    + destruct (IH _ Hrest Hy) as [n1 H1].
      apply rmtree_unlink in E as ->.
      destruct (shrinking_unlink x fs y n1 H1) as (n0 & H0 & _). by eauto.
Qed.

(** X13: for an extracted submission whose path holds no magic, a
    [__MACOSX] folder right inside its [__MACOSX] folder makes
    [cleanup_files] raise: the glob lists both, and the inner one is gone
    when [rmtree] comes to it. *)
Theorem cleanup_files_nested_macosx_raises (fs : node) (p : path) :
  glob.has_magic (path_str p) = false →
  os.isdir fs (p ++ ["__MACOSX"; "__MACOSX"]) = true →
  ∃ e, mos_moss.cleanup_files fs p = Raise e.
Proof.
  intros _ Hdir. unfold os.isdir in Hdir.
  destruct (lookup fs (p ++ ["__MACOSX"; "__MACOSX"])) as [[sz|inner]|] eqn:Hy;
    try done.
  change (p ++ ["__MACOSX"; "__MACOSX"])
    with (p ++ ["__MACOSX"] ++ ["__MACOSX"]) in Hy.
  rewrite app_assoc in Hy.
  assert (∃ outer, lookup fs (p ++ ["__MACOSX"]) = Some (Dir outer))
    as [outer Hx].
  { rewrite lookup_app in Hy.
    destruct (lookup fs (p ++ ["__MACOSX"])) as [[sz|outer]|]; try done.
    by eauto. }
  assert (∃ es, lookup fs p = Some (Dir es)) as [es Hp].
  { rewrite lookup_app in Hx.
    destruct (lookup fs p) as [[sz|es]|]; try done. by eauto. }
  destruct (mos_moss.cleanup_files fs p) as [fs'|e] eqn:Hok; [|by eauto].
  exfalso. unfold mos_moss.cleanup_files in Hok.
  assert ((p ++ ["__MACOSX"]) ++ ["__MACOSX"]
          ∈ glob.recursive_name fs p "__MACOSX") as Hin.
  { unfold glob.recursive_name. apply list_elem_of_In, in_flat_map.
    exists (p ++ ["__MACOSX"]). split.
    - apply list_elem_of_In.
      apply (recursive_dirs_complete _ _ _ outer); [|done].
      by repeat constructor.
    - unfold os.exists_. rewrite Hy. by left. }
  unfold glob.recursive_name, glob.recursive_dirs in Hok, Hin.
  rewrite Hp in Hok, Hin. cbn [flat_map] in Hok, Hin.
  unfold os.exists_ in Hok at 1. unfold os.exists_ in Hin at 1.
  rewrite Hx in Hok, Hin. cbn [app for_each] in Hok, Hin.
  apply elem_of_cons in Hin as [Heq|Hin].
  { apply (f_equal length) in Heq. rewrite !length_app in Heq.
    simpl in Heq. lia. }
  assert (shutil.rmtree fs (p ++ ["__MACOSX"])
          = Ok (unlink fs (p ++ ["__MACOSX"]))) as Hrm
    by (unfold shutil.rmtree; by rewrite Hx).
  rewrite Hrm in Hok. cbn [mbind result_bind] in Hok.
  destruct (for_each_rmtree_existed _ _ _ _ Hok Hin) as [n1 H1].
  by rewrite lookup_app, lookup_unlink_self in H1.
Qed.

Lemma cleanup_files_nested_macosx_raises_witness :
  ∃ e,
    mos_moss.cleanup_files
      (Dir [("alice", Dir [("__MACOSX", Dir [("__MACOSX", Dir [])])])])
      ["alice"]
    = Raise e.
Proof.
  apply cleanup_files_nested_macosx_raises; reflexivity.
Defined.

Lemma stat_alter_outside d g fs q :
  ¬ d `prefix_of` q → stat (alter_at d g fs) q = stat fs q.
Proof.
  revert fs q. induction d as [|c d IH]; intros fs q Hd.
  - destruct Hd. apply prefix_nil.
  - destruct fs as [sz|es]; [done|]. simpl.
    destruct q as [|c' q]; [done|].
    rewrite !stat_cons, lookup_entry_alter_entry.
    case_decide as Hc; [subst c'|done].
    destruct (lookup_entry c es) as [n1|]; simpl; [|done].
    apply IH. intros Hp. apply Hd. by apply prefix_cons.
Qed.

(** X16: [flatten_folder] changes nothing outside the destination: at a
    path that does not lead into it, there is after the call what there
    was before. *)
Theorem flatten_folder_stays_inside (fs : node) (destination : path)
    (fs' : node) (q : path) :
  mos_moss.flatten_folder fs destination = Ok fs' →
  ¬ destination `prefix_of` q →
  stat fs' q = stat fs q.
Proof.
  intros Hok Hq.
  destruct (lookup fs destination) as [n|] eqn:Hd.
  - rewrite (flatten_folder_local _ _ _ Hd) in Hok. unfold within in Hok.
    destruct (mos_moss.flatten_folder n []) as [n'|e]; [|done].
    injection Hok as <-. by apply stat_alter_outside.
  - unfold mos_moss.flatten_folder, os.listdir in Hok. by rewrite Hd in Hok.
Qed.

Lemma flatten_folder_stays_inside_witness :
  let fs :=
    Dir [("alice", Dir [("hw", Dir [("Main.java", File 10)])]);
         ("bob", Dir [("B.java", File 2)])] in
  ∃ fs', mos_moss.flatten_folder fs ["alice"] = Ok fs'
         ∧ stat fs' ["bob"; "B.java"] = Some (Some 2%N).
Proof.
  intros fs. eexists. split; [reflexivity|].
  rewrite (flatten_folder_stays_inside fs ["alice"] _ ["bob"; "B.java"]
             eq_refl); [reflexivity|].
  apply (bool_decide_unpack _). vm_compute. exact I.
Defined.



(** X18: the archive made on a Mac.  When the extracted folder holds one
    folder [w] beside a [__MACOSX] folder, that [__MACOSX] is the only one
    the glob finds, and nothing in [w] is called like [w], the two steps
    after the extraction leave the items of [w], and only them, in the
    extracted folder. *)
Theorem after_extract_mac_archive_flattens (fs : node) (p : path)
    (es : list (string * node)) (w : string)
    (items junk : list (string * node)) :
  lookup fs p = Some (Dir es) →
  lookup_entry "__MACOSX" es = Some (Dir junk) →
  remove_entry "__MACOSX" es = [(w, Dir items)] →
  glob.recursive_name fs p "__MACOSX" = [p ++ ["__MACOSX"]] →
  NoDup (map fst items) → w ∉ map fst items →
  mos_moss.after_extract fs p = Ok (graft p (Dir items) fs).
Proof.
  intros Hp Hm Hrest Hglob Hnd Hw.
  unfold mos_moss.after_extract, mos_moss.cleanup_files.
  rewrite Hglob. cbn [for_each].
  assert (shutil.rmtree fs (p ++ ["__MACOSX"])
          = Ok (graft p (Dir [(w, Dir items)]) fs)) as ->.
  { unfold shutil.rmtree. rewrite lookup_app, Hp. simpl. rewrite Hm.
    f_equal. unfold unlink. rewrite split_last_snoc.
    rewrite <- (app_nil_r p) at 1.
    rewrite (update_dir_local _ _ _ _ _ Hp). unfold update_dir. simpl.
    by rewrite Hrest. }
  cbn [mbind result_bind].
  rewrite (flatten_folder_local _ _ (Dir [(w, Dir items)]));
    [|by apply (lookup_graft _ _ _ _ Hp)].
  rewrite flatten_folder_root by done. unfold within.
  cbn [mbind result_bind]. by rewrite graft_graft.
Qed.

Lemma after_extract_mac_archive_flattens_witness :
  let fs :=
    Dir [("alice",
          Dir [("hw1", Dir [("Main.java", File 10); ("src", Dir [])]);
               ("__MACOSX", Dir [("hw1", Dir [("._Main.java", File 1)])])])]
  in
  mos_moss.after_extract fs ["alice"]
  = Ok (Dir [("alice", Dir [("Main.java", File 10); ("src", Dir [])])]).
Proof.
  intros fs.
  refine (after_extract_mac_archive_flattens fs ["alice"] _ "hw1"
            [("Main.java", File 10); ("src", Dir [])]
            [("hw1", Dir [("._Main.java", File 1)])]
            eq_refl eq_refl eq_refl eq_refl _ _).
  - apply (bool_decide_unpack _). vm_compute. exact I.
  - apply (bool_decide_unpack _). vm_compute. exact I.
Defined.

Lemma flatten_folder_moves_up_witness :
  let fs :=
    Dir [("bob", Dir [("hw", Dir [("B.java", File 2); ("lib", Dir [])])])] in
  mos_moss.flatten_folder fs ["bob"]
  = Ok (Dir [("bob", Dir [("B.java", File 2); ("lib", Dir [])])]).
Proof.
  intros fs.
  refine (flatten_folder_moves_up fs ["bob"] "hw"
            [("B.java", File 2); ("lib", Dir [])] eq_refl _ _).
  - apply (bool_decide_unpack _). vm_compute. exact I.
  - apply (bool_decide_unpack _). vm_compute. exact I.
Defined.

Lemma flatten_folder_keeps_several_witness :
  let fs := Dir [("bob", Dir [("A.java", File 1); ("B.java", File 2)])] in
  mos_moss.flatten_folder fs ["bob"] = Ok fs.
Proof.
  intros fs.
  apply (flatten_folder_keeps_several fs ["bob"]
           [("A.java", File 1); ("B.java", File 2)]).
  - reflexivity.
  - simpl. lia.
Defined.

(** ** More about sending, and the loop over the batches *)

Lemma string_app_inj_r (a b c : string) : a +:+ c = b +:+ c → a = b.
Proof.
  intros H.
  assert (String.length a = String.length b) as Hlen.
  { apply (f_equal String.length) in H. rewrite !string_app_length in H. lia. }
  revert b H Hlen. induction a as [|x a IH]; intros [|y b] H Hlen; try done.
  rewrite !string_app_cons in H. injection H as -> H.
  f_equal. apply IH; [done|]. simpl in Hlen. lia.
Qed.

Lemma send_to_moss_trace getenv url moss report_path user_id no_report count :
  mos_moss.send_to_moss getenv url moss report_path user_id no_report count
  = (Ok (),
     [Send (mosspy.set_user_id moss (effective_user_id user_id getenv));
      Mkdir report_path;
      SaveWebPage url
        (report_path +:+ "/report" +:+ str_of_int count +:+ ".html")]
     ++ (if no_report then []
         else [Mkdir (report_path +:+ "/report" +:+ str_of_int count);
               DownloadReport url
                 (report_path +:+ "/report" +:+ str_of_int count) 8])).
Proof.
  unfold mos_moss.send_to_moss. simpl.
  rewrite effective_user_id_or, effective_user_id_truthy. simpl.
  by destruct no_report.
Qed.

(** X19: two batch numbers never share a report: the pages that
    [send_to_moss] saves for different numbers in one report directory have
    different paths, and so have the directories it downloads into. *)
Theorem send_to_moss_reports_do_not_collide (getenv1 getenv2 : option string)
    (url1 url2 : string) (moss1 moss2 : mosspy.Moss) (report_path : string)
    (user_id1 user_id2 : option string) (no_report1 no_report2 : bool)
    (n m : Z) :
  n ≠ m →
  let trace1 :=
    snd (mos_moss.send_to_moss getenv1 url1 moss1 report_path user_id1
           no_report1 n) in
  let trace2 :=
    snd (mos_moss.send_to_moss getenv2 url2 moss2 report_path user_id2
           no_report2 m) in
  (∀ p, p ∈ map snd (saved_pages trace1) → p ∉ map snd (saved_pages trace2))
  ∧ (∀ p, p ∈ map snd (downloads trace1) → p ∉ map snd (downloads trace2)).
Proof.
  intros Hnm trace1 trace2. subst trace1 trace2.
  rewrite !send_to_moss_trace. cbn [snd].
  assert (∀ suffix,
            report_path +:+ "/report" +:+ str_of_int n +:+ suffix
            ≠ report_path +:+ "/report" +:+ str_of_int m +:+ suffix)
    as Hne.
  { intros suffix H. apply Hnm, str_of_int_inj.
    apply (inj (String.app report_path)) in H.
    apply (inj (String.app "/report")) in H.
    by apply string_app_inj_r in H. }
  split; intros p.
  - destruct no_report1, no_report2; simpl;
      intros ->%list_elem_of_singleton ?%list_elem_of_singleton;
      by apply (Hne ".html").
  - destruct no_report1, no_report2; simpl;
      try (by intros ?%elem_of_nil); try (by intros _ ?%elem_of_nil).
    intros ->%list_elem_of_singleton ?%list_elem_of_singleton.
    apply (Hne ""). by rewrite !string_app_nil_r.
Qed.

Lemma send_to_moss_reports_do_not_collide_witness :
  "report/report1.html"
  ∉ map snd
      (saved_pages
         (snd (mos_moss.send_to_moss None "http://moss/2"
                 (mosspy.new None "java") "report" None false 2))).
Proof.
  destruct (send_to_moss_reports_do_not_collide None None "http://moss/1"
              "http://moss/2" (mosspy.new None "java")
              (mosspy.new None "java") "report" None None false false 1 2)
    as [H _].
  - lia.
  - apply H. vm_compute. by left.
Defined.








(** ** More about file selection *)

Lemma lookup_prefix fs (a b : path) n :
  lookup fs (a ++ b) = Some n → is_Some (lookup fs a).
Proof.
  rewrite lookup_app. destruct (lookup fs a); [by eauto|done].
Qed.

Lemma lookup_prefix_dir fs (a : path) c (b : path) n :
  lookup fs (a ++ c :: b) = Some n → os.isdir fs a = true.
Proof.
  unfold os.isdir. rewrite lookup_app.
  by destruct (lookup fs a) as [[sz|es]|].
Qed.

(** X11: for a folder whose path holds no magic, when [cleanup_files]
    returns, no directory that can be reached from the folder through names
    that are not hidden holds a [__MACOSX], and [list_files] on the folder
    returns no path that goes through a [__MACOSX] or is called so. *)
Theorem cleanup_files_leaves_no_visible_macosx (fs : node) (p : path)
    (fs' : node) :
  glob.has_magic (path_str p) = false →
  mos_moss.cleanup_files fs p = Ok fs' →
  (∀ q, visible q → os.isdir fs' (p ++ q) = true →
        os.exists_ fs' (p ++ q ++ ["__MACOSX"]) = false)
  ∧ (∀ language f, f ∈ mos_moss.list_files fs' p language →
        "__MACOSX" ∉ drop (length p) f).
Proof.
  intros _ Hok. split.
  - intros q. by apply (cleanup_files_clears_visible fs).
  - intros language f.
    rewrite list_files_unfiltered, candidates_spec.
    intros (ext & _ & Hf).
    apply recursive_suffix_spec in Hf as (rel & name & -> & Hvis & _ & Hex & _).
    rewrite drop_app_length.
    intros (q & r & Hsplit)%list_elem_of_split.
    rewrite Hsplit in Hvis, Hex.
    apply Forall_app in Hvis as [Hq _].
    unfold os.exists_ in Hex.
    destruct (lookup fs' (p ++ q ++ "__MACOSX" :: r)) as [n|] eqn:Hl; [|done].
    assert (os.isdir fs' (p ++ q) = true) as Hdir.
    { rewrite app_assoc in Hl. by apply lookup_prefix_dir in Hl. }
    pose proof (cleanup_files_clears_visible fs p fs' q Hok Hq Hdir) as Hno.
    change (p ++ q ++ "__MACOSX" :: r)
      with (p ++ q ++ ["__MACOSX"] ++ r) in Hl.
    rewrite !app_assoc in Hl. apply lookup_prefix in Hl as [n' Hn'].
    unfold os.exists_ in Hno. rewrite <- !app_assoc in Hn'.
    by rewrite Hn' in Hno.
Qed.

Lemma cleanup_files_leaves_no_visible_macosx_witness :
  let fs :=
    Dir [("alice", Dir [("hw", Dir [("Main.java", File 10);
                                    ("__MACOSX", Dir [("Old.java", File 3)])]);
                        ("__MACOSX", Dir [("hw", Dir [])])])] in
  ∃ fs', mos_moss.cleanup_files fs ["alice"] = Ok fs'
         ∧ os.exists_ fs' (["alice"] ++ ["hw"] ++ ["__MACOSX"]) = false.
Proof.
  intros fs. eexists. split; [reflexivity|].
  destruct (cleanup_files_leaves_no_visible_macosx fs ["alice"] _ eq_refl
              eq_refl)
    as [H _].
  apply (H ["hw"]).
  - by repeat constructor.
  - reflexivity.
Defined.

Lemma lower_char_idemp (c : ascii) : lower_char (lower_char c) = lower_char c.
Proof.
  unfold lower_char. destruct (is_upper c) eqn:Hc; [|by rewrite Hc].
  assert (is_upper (ascii_of_nat (nat_of_ascii c + 32)) = false) as ->; [|done].
  unfold is_upper in *. apply andb_prop in Hc as [H1 H2].
  apply Nat.leb_le in H1, H2.
  rewrite nat_ascii_embedding by lia.
  apply andb_false_iff. right. apply Nat.leb_gt. lia.
Qed.

Lemma lower_idemp (s : string) : lower (lower s) = lower s.
Proof.
  induction s as [|c s IH]; [done|]. simpl. by rewrite lower_char_idemp, IH.
Qed.

(** X22: [list_files] takes the language without regard to case: it
    returns for a language what it returns for its lowercase form. *)
Theorem list_files_ignores_case (fs : node) (folder : path)
    (language : string) :
  mos_moss.list_files fs folder (lower language)
  = mos_moss.list_files fs folder language.
Proof.
  rewrite !list_files_unfiltered. unfold extensions_of.
  by rewrite lower_idemp.
Qed.

Lemma list_files_never_pdf_or_jar_witness :
  endswith (path_str ["out"; "alice"; "A.java"]) "jar" = false.
Proof.
  destruct (list_files_never_pdf_or_jar
              (Dir [("out", Dir [("alice", Dir [("A.java", File 4)])])])
              ["out"] "java" ["out"; "alice"; "A.java"]) as [_ H].
  - vm_compute. by left.
  - exact H.
Defined.

(** ** More about [run_moss.py] and about the batch *)

(** X23: in [run_moss.py] the folder name, when there is one, is the start
    of a member name that matches the pattern, is made of letters, digits
    and underscores only, and is not empty; there is none exactly when the
    original name is to be kept or the pattern does not match; computing
    the name raises nothing. *)
Theorem run_moss_folder_name_is_prefix (original_name : bool)
    (filename : string) :
  match run_moss.folder_name original_name filename with
  | Ok (Some name) =>
      original_name = false
      ∧ is_Some (re.match_ run_moss.SUBMISSION_RE filename)
      ∧ (∃ rest, filename = name +:+ rest)
      ∧ all_in re.Word name = true
      ∧ 1 ≤ String.length name
  | Ok None =>
      original_name = true
      ∨ re.match_ run_moss.SUBMISSION_RE filename = None
  | Raise _ => False
  end.
Proof.
  unfold run_moss.folder_name. destruct original_name; [by left|].
  unfold re.match_.
  destruct (re.run _ _ _ _) as [[mk e]|] eqn:E; [|by right].
  simpl. split; [done|]. split; [done|].
  apply run_sound in E as (w & rest & -> & -> & Hm).
  rewrite Nat.add_0_l, substring_0_append.
  split; [by exists rest|].
  unfold run_moss.SUBMISSION_RE in Hm. simpl in Hm.
  invert_matches.
  repeat match goal with
         | H : re.in_charset (re.Literal _) _ = true |- _ =>
             simpl in H; apply Ascii.eqb_eq in H; subst
         end.
  repeat match goal with
         | H : all_in re.Digit _ = true |- _ => apply all_in_digit_word in H
         end.
  split.
  - rewrite !all_in_app. simpl. rewrite !all_in_app. simpl.
    rewrite !all_in_app. simpl.
    repeat match goal with
           | H : all_in re.Word _ = true |- _ => rewrite H
           end.
    done.
  - rewrite string_app_length. lia.
Qed.

(** X24: when a sample is asked for from an output folder whose path
    holds no magic, every folder of the batch is an entry of the output
    folder that exists and whose name is not hidden. *)
Theorem sampled_batch_holds_visible_entries (fs : node) (g : random.state)
    (zip_output : path) (n : Z) (folder : path) :
  glob.has_magic (path_str zip_output) = false →
  n ≠ 0%Z →
  folder ∈ fst (mos_moss.submission_folders fs g zip_output n) →
  ∃ name, folder = zip_output ++ [name]
          ∧ glob.ishidden name = false
          ∧ os.exists_ fs folder = true.
Proof.
  intros _ Hn. unfold mos_moss.submission_folders.
  destruct (n =? 0)%Z eqn:E; [apply Z.eqb_eq in E; done|]. simpl.
  pose proof (shuffle_Permutation (glob.star fs zip_output) g) as Hp.
  destruct (random.shuffle _ g) as [folders g']. simpl in *.
  intros Hin%slice_to_subseteq. rewrite Hp in Hin.
  apply glob1_suffix_spec in Hin as (name & -> & _ & Hex & Hvis & _).
  by exists name.
Qed.

Lemma sampled_batch_holds_visible_entries_witness :
  ∃ name, ["out"; "bob"] = ["out"] ++ [name]
          ∧ glob.ishidden name = false.
Proof.
  destruct (sampled_batch_holds_visible_entries
              (Dir [("out", Dir [(".git", Dir []); ("alice", Dir []);
                                 ("bob", Dir [])])])
              [0] ["out"] 1 ["out"; "bob"]) as (name & H1 & H2 & _).
  - reflexivity.
  - lia.
  - vm_compute. by left.
  - by exists name.
Defined.

(** ** The comment of a submission *)

Lemma concat_headed (sep : string) (c : ascii) (s : string)
    (l : list string) :
  String.concat sep (String c s :: l) ≠ "".
Proof. destruct l; simpl; [done|]. by rewrite string_app_cons. Qed.

(** X25: the comment that [create_moss_comments] builds is empty exactly
    when no base files and no solutions are given and no sample is asked
    for. *)
Theorem create_moss_comments_empty_iff (max_submissions : Z)
    (submission_folders : list path) (base_files solutions : option path) :
  mos_moss.create_moss_comments max_submissions submission_folders
    base_files solutions = ""
  ↔ supplied base_files = false ∧ supplied solutions = false
    ∧ max_submissions = 0%Z.
Proof.
  unfold mos_moss.create_moss_comments. split.
  - intros H.
    destruct (supplied base_files);
      [cbn [app] in H; rewrite string_app_cons in H;
       by apply concat_headed in H|].
    destruct (supplied solutions);
      [cbn [app] in H; rewrite string_app_cons in H;
       by apply concat_headed in H|].
    destruct (max_submissions =? 0)%Z eqn:E;
      [by apply Z.eqb_eq in E|].
    cbn [negb app] in H. rewrite string_app_cons in H.
    by apply concat_headed in H.
  - intros (-> & -> & ->). reflexivity.
Qed.
